(** * Tic-tac-toe relay server: room registry and game engine

    A shallow embedding of [server.js].  The server keeps one process-wide
    [rooms] map from room code to room object and reacts to four kinds of
    inbound message ([create], [join], [move], [restart]) and to connection
    close/error events ([cleanupWs]).

    Every reaction runs to completion on a single thread, so a reaction is
    modelled as a function from the registry before the reaction to the
    registry after it together with the list of messages handed to
    [ws.send], in the order in which they are sent. *)

From Stdlib Require Import Ascii String QArith Qround.
From stdpp Require Import gmap strings list fin_maps.

#[local] Set Warnings "-clear-no-such-hyp".

Local Open Scope string_scope.
Local Open Scope list_scope.
Local Open Scope nat_scope.
Local Open Scope stdpp_scope.

(** ** JavaScript values *)

(** A connection object [ws].  Only its identity matters to the server. *)
Definition conn := nat.

(** A JavaScript number.  Every finite double is a rational, so quantifying
    over [Q] covers every finite double; the sign of zero is not
    distinguished since [-0 < 0] is false and [-0] names the property ["0"].
    [JSON.parse] yields an infinity for a literal that overflows. *)
Inductive number :=
| Finite (q : Q)
| NaN
| PosInfinity
| NegInfinity.

(** A value found in a field of a parsed JSON message. *)
Inductive jsval :=
| VUndefined
| VNull
| VBool (b : bool)
| VNumber (n : number)
| VString (s : string)
| VObject.

(** [a < b] on numbers: false as soon as one side is [NaN]. *)
Definition js_lt (a b : number) : bool :=
  match a, b with
  | NaN, _ | _, NaN => false
  | Finite x, Finite y => negb (Qle_bool y x)
  | NegInfinity, NegInfinity => false
  | NegInfinity, _ => true
  | _, NegInfinity => false
  | PosInfinity, _ => false
  | _, PosInfinity => true
  end.

Arguments js_lt : simpl never.

(** A string is truthy unless it is empty. *)
Definition truthy (s : string) : bool := negb (bool_decide (s = "")).

(** [undefined] and [null] are falsy. *)
Definition truthy_opt (o : option string) : bool :=
  match o with
  | Some s => truthy s
  | None => false
  end.

(** The array index named by the property key of a number, when the key is
    one: a number that is a non-negative integer. *)
Definition array_index (i : number) : option nat :=
  match i with
  | Finite q =>
      if decide ((Qnum q mod Zpos (Qden q) = 0)%Z ∧ (0 ≤ Qnum q)%Z)
      then Some (Z.to_nat (Qnum q / Zpos (Qden q)))
      else None
  | _ => None
  end.

(** [arr[i]] for a number [i]; [None] is [undefined]. *)
Definition array_get {A} (arr : list A) (i : number) : option A :=
  k ← array_index i; arr !! k.

(** [arr[i] = v].  The server performs this write only after it has read
    [arr[i] === ""], so the index is that of an existing element. *)
Definition array_set {A} (arr : list A) (i : number) (v : A) : list A :=
  match array_index i with
  | Some k => <[k:=v]> arr
  | None => arr
  end.

(** ** The alphabet of room codes *)

Definition chars : string := "ABCDEFGHJKLMNPQRSTUVWXYZ23456789".

Definition in_alphabet (c : ascii) : Prop := c ∈ list_ascii_of_string chars.

(** ** The string built-ins

    [String.prototype.toUpperCase] and [String.prototype.trim] belong to the
    JavaScript runtime, not to the server: they map case and strip white
    space over the whole of Unicode.  They are parameters of the model,
    with the one fact about them that the server relies on: a string made
    of characters of [chars] only, the empty string included, has no letter
    to raise and no white space to strip, so both leave it as it is.
    Nothing is assumed of what they do to any other string, and every
    statement below that is not about a sample input holds for every such
    pair of functions. *)
Class JSString := {
  toUpperCase : string → string;
  trim : string → string;
  toUpperCase_code (s : string) :
    Forall in_alphabet (list_ascii_of_string s) → toUpperCase s = s;
  trim_code (s : string) :
    Forall in_alphabet (list_ascii_of_string s) → trim s = s
}.

(** [(msg.roomCode || "").toUpperCase().trim()], for a [roomCode] that is a
    string; [None] is a falsy [roomCode], for which [|| ""] gives [""]. *)
Definition normalize `{JSString} (roomCode : option string) : string :=
  trim (toUpperCase (default "" roomCode)).

(** *** The built-ins on ASCII strings

    What the built-ins do to a string of ASCII characters.  This instance
    runs the model on sample inputs, all of them ASCII. *)

Definition upper_ascii (c : ascii) : ascii :=
  let n := nat_of_ascii c in
  if (97 <=? n) && (n <=? 122) then ascii_of_nat (n - 32) else c.

Fixpoint ascii_toUpperCase (s : string) : string :=
  match s with
  | EmptyString => EmptyString
  | String c r => String (upper_ascii c) (ascii_toUpperCase r)
  end.

(** Tab, line feed, vertical tab, form feed, carriage return, space. *)
Definition is_white (c : ascii) : bool :=
  let n := nat_of_ascii c in
  ((9 <=? n) && (n <=? 13)) || (n =? 32).

Fixpoint trim_front (l : list ascii) : list ascii :=
  match l with
  | [] => []
  | c :: r => if is_white c then trim_front r else l
  end.

Definition ascii_trim (s : string) : string :=
  string_of_list_ascii
    (reverse (trim_front (reverse (trim_front (list_ascii_of_string s))))).

#[global] Instance ascii_strings : JSString.
Proof.
  refine {| toUpperCase := ascii_toUpperCase; trim := ascii_trim |}.
  - assert (Hfix : Forall (λ c, upper_ascii c = c)
                     (list_ascii_of_string chars))
      by (apply (bool_decide_unpack _); by vm_compute).
    rewrite Forall_forall in Hfix.
    induction s as [|c s IH]; simpl; [done|].
    intros Hs. apply Forall_cons in Hs as [Hc Hs].
    by rewrite (Hfix c Hc), IH.
  - assert (Hfix : Forall (λ c, is_white c = false)
                     (list_ascii_of_string chars))
      by (apply (bool_decide_unpack _); by vm_compute).
    rewrite Forall_forall in Hfix.
    assert (Hid : ∀ l, Forall in_alphabet l → trim_front l = l).
    { intros l [|c r Hc _]; simpl; [done|]. by rewrite (Hfix c Hc). }
    intros s Hs. unfold ascii_trim.
    rewrite (Hid _ Hs), Hid by by apply Forall_reverse.
    by rewrite reverse_involutive, string_of_list_ascii_of_string.
Defined.

(** ** Room codes *)

(** [chars[z]]; [None] is [undefined]. *)
Definition char_at (s : string) (z : Z) : option ascii :=
  if (z <? 0)%Z then None else String.get (Z.to_nat z) s.

(** [code += c]: concatenating [undefined] appends its name. *)
Definition append_char (code : string) (c : option ascii) : string :=
  code +:+ match c with
           | Some a => String a ""
           | None => "undefined"
           end.

(** [Math.floor(r * chars.length)] *)
Definition random_index (r : Q) : Z :=
  Qfloor (r * inject_Z (Z.of_nat (String.length chars))).

(** The body of [makeRoomCode]'s loop run [n] times.  [rnd] is the sequence
    of results of [Math.random()] during the reaction and [k] the number of
    results already consumed. *)
Fixpoint makeRoomCode_loop (n : nat) (rnd : nat → Q) (k : nat) (code : string)
  : string :=
  match n with
  | 0 => code
  | S n' =>
      makeRoomCode_loop n' rnd (S k)
        (append_char code (char_at chars (random_index (rnd k))))
  end.

Definition makeRoomCode (rnd : nat → Q) (k : nat) : string :=
  makeRoomCode_loop 5 rnd k "".

(** The contract of [Math.random]: every result lies in [[0, 1)]. *)
Definition random_ok (rnd : nat → Q) : Prop :=
  ∀ k, (0 <= rnd k)%Q ∧ (rnd k < 1)%Q.

(** ** Rooms and the registry *)

Record room := Room {
  players : list (option conn);
  symbols : gmap conn string;
  board : list string;
  turn : string;
  gameOver : bool
}.

(** [rooms] is a [Map], which iterates in insertion order; [cleanupWs]
    depends on that order, so the registry is an association list. *)
Definition registry := list (string * room).

Fixpoint rooms_get (code : string) (rooms : registry) : option room :=
  match rooms with
  | [] => None
  | (c, r) :: rest => if decide (c = code) then Some r else rooms_get code rest
  end.

Definition rooms_has (code : string) (rooms : registry) : bool :=
  bool_decide (is_Some (rooms_get code rooms)).

(** [rooms.set(code, room)]: an existing key keeps its place, a new key goes
    last.  Also used for a field update of a room object held in the map. *)
Fixpoint rooms_set (code : string) (rm : room) (rooms : registry) : registry :=
  match rooms with
  | [] => [(code, rm)]
  | (c, r) :: rest =>
      if decide (c = code) then (c, rm) :: rest
      else (c, r) :: rooms_set code rm rest
  end.

Fixpoint rooms_delete (code : string) (rooms : registry) : registry :=
  match rooms with
  | [] => []
  | (c, r) :: rest =>
      if decide (c = code) then rest else (c, r) :: rooms_delete code rest
  end.

(** ** Outbound messages *)

Record room_view := RoomView {
  view_board : list string;
  view_turn : string;
  view_gameOver : bool;
  view_playersCount : nat
}.

Inductive outmsg :=
| MHello (message : string)
| MJoined (roomCode : string) (you : option string)
| MState (st : option room_view)
| MInfo (message : string)
| MError (message : string)
| MGameOver (winner : string).

(** One call of [ws.send]: the receiving connection and the message. *)
Definition send := (conn * outmsg)%type.

(** [safeSend(ws, obj)]: nothing is sent to [null] or to a connection that
    is not open.  [isOpen] is the ready state of the connections during the
    reaction. *)
Definition safeSend (isOpen : conn → bool) (ws : option conn) (obj : outmsg)
  : list send :=
  match ws with
  | Some w => if isOpen w then [(w, obj)] else []
  | None => []
  end.

Definition broadcastRoom (isOpen : conn → bool) (rooms : registry)
    (roomCode : string) (obj : outmsg) : list send :=
  match rooms_get roomCode rooms with
  | None => []
  | Some rm => p ← players rm; safeSend isOpen p obj
  end.

(** [room.players.filter(Boolean).length] *)
Definition playersCount (ps : list (option conn)) : nat :=
  length (filter (λ p, is_Some p) ps).

Definition roomState (rooms : registry) (roomCode : string)
  : option room_view :=
  match rooms_get roomCode rooms with
  | None => None
  | Some rm =>
      Some (RoomView (board rm) (turn rm) (gameOver rm)
              (playersCount (players rm)))
  end.

(** [{ type: "state", ...roomState(code) }] *)
Definition state_msg (rooms : registry) (roomCode : string) : outmsg :=
  MState (roomState rooms roomCode).

(** ** Array helpers on the two player slots *)

(** [room.players.indexOf(ws)]; [None] is [-1]. *)
Definition indexOf (ps : list (option conn)) (ws : conn) : option nat :=
  fst <$> list_find (λ p, p = Some ws) ps.

(** [room.players.includes(ws)] *)
Definition includes (ps : list (option conn)) (ws : conn) : bool :=
  bool_decide (Some ws ∈ ps).

(** [room.players.findIndex(p => !p)]; [None] is [-1]. *)
Definition findIndex_free (ps : list (option conn)) : option nat :=
  fst <$> list_find (λ p, p = None) ps.

(** [room.players.every(p => !p)] *)
Definition every_free (ps : list (option conn)) : bool :=
  forallb (λ p, negb (bool_decide (is_Some p))) ps.

(** ** Win detection *)

Definition WINS : list (nat * nat * nat) :=
  [ (0, 1, 2); (3, 4, 5); (6, 7, 8);
    (0, 3, 6); (1, 4, 7); (2, 5, 8);
    (0, 4, 8); (2, 4, 6) ].

(** [board[a] && board[a] === board[b] && board[a] === board[c]] *)
Definition line_wins (bd : list string) (line : nat * nat * nat) : bool :=
  let '(a, b, c) := line in
  match bd !! a with
  | Some va =>
      truthy va && bool_decide (bd !! b = Some va)
                && bool_decide (bd !! c = Some va)
  | None => false
  end.

(** The [for (const [a,b,c] of WINS)] loop with its [break]; [None] is the
    initial [null]. *)
Fixpoint scan_wins (bd : list string) (lines : list (nat * nat * nat))
  : option string :=
  match lines with
  | [] => None
  | (a, b, c) :: rest =>
      if line_wins bd (a, b, c) then bd !! a else scan_wins bd rest
  end.

(** [room.board.every(v => v !== "")] *)
Definition board_full (bd : list string) : bool :=
  forallb (λ v, negb (bool_decide (v = ""))) bd.

(** ** Reactions *)

Definition msg_created : string := "Комната создана. Поделись кодом с другом.".
Definition msg_joined2 : string := "Второй игрок подключился. Можно играть!".
Definition msg_left : string := "Игрок отключился. Можно подключиться снова.".
Definition msg_restarted : string := "Игра перезапущена.".
Definition msg_hello : string := "Подключено. Создай или войди в комнату.".
Definition err_not_found : string := "Комната не найдена.".
Definition err_full : string := "Комната уже заполнена (2 игрока).".
Definition err_not_member : string := "Ты не в комнате.".
Definition err_waiting : string := "Ждём второго игрока...".
Definition err_not_your_turn : string := "Сейчас не твой ход.".

(** *** cleanupWs *)

(** The [for ... of rooms.entries()] loop: [todo] is what is left to visit,
    [rooms] the whole registry. *)
Fixpoint cleanupWs_scan (isOpen : conn → bool) (ws : conn)
    (rooms todo : registry) : registry * list send :=
  match todo with
  | [] => (rooms, [])
  | (code, rm) :: rest =>
      match indexOf (players rm) ws with
      | Some idx =>
          let rm' := Room (<[idx:=None]> (players rm)) (delete ws (symbols rm))
                          (board rm) (turn rm) (gameOver rm) in
          let rooms1 := rooms_set code rm' rooms in
          let out :=
            broadcastRoom isOpen rooms1 code (MInfo msg_left)
            ++ broadcastRoom isOpen rooms1 code (state_msg rooms1 code) in
          if every_free (players rm')
          then (rooms_delete code rooms1, out)
          else (rooms1, out)
      | None => cleanupWs_scan isOpen ws rooms rest
      end
  end.

Definition cleanupWs (isOpen : conn → bool) (ws : conn) (rooms : registry)
  : registry * list send :=
  cleanupWs_scan isOpen ws rooms rooms.

(** *** create *)

(** [let code = makeRoomCode(); while (rooms.has(code)) code = makeRoomCode();]
    with at most [fuel] calls of [makeRoomCode]; [k] random numbers have
    been consumed so far.  [None]: the loop is still running. *)
Fixpoint fresh_code (fuel : nat) (rnd : nat → Q) (k : nat) (rooms : registry)
  : option string :=
  match fuel with
  | 0 => None
  | S fuel' =>
      let code := makeRoomCode rnd k in
      if rooms_has code rooms then fresh_code fuel' rnd (k + 5) rooms
      else Some code
  end.

Definition new_room (ws : conn) : room :=
  Room [Some ws; None] {[ws := "X"]} (replicate 9 "") "X" false.

Definition on_create (isOpen : conn → bool) (rnd : nat → Q) (fuel : nat)
    (ws : conn) (rooms : registry) : option (registry * list send) :=
  code ← fresh_code fuel rnd 0 rooms;
  let rooms' := rooms_set code (new_room ws) rooms in
  Some (rooms',
        safeSend isOpen (Some ws) (MJoined code (Some "X"))
        ++ safeSend isOpen (Some ws) (state_msg rooms' code)
        ++ safeSend isOpen (Some ws) (MInfo msg_created)).

(** *** join *)

Definition on_join `{JSString} (isOpen : conn → bool) (ws : conn)
    (roomCode : option string) (rooms : registry) : registry * list send :=
  let code := normalize roomCode in
  match rooms_get code rooms with
  | None => (rooms, safeSend isOpen (Some ws) (MError err_not_found))
  | Some rm =>
      if includes (players rm) ws then
        (rooms,
         safeSend isOpen (Some ws) (MJoined code (symbols rm !! ws))
         ++ safeSend isOpen (Some ws) (state_msg rooms code))
      else
        match findIndex_free (players rm) with
        | None => (rooms, safeSend isOpen (Some ws) (MError err_full))
        | Some freeIndex =>
            let symbol := if decide (freeIndex = 0) then "X" else "O" in
            let rm' := Room (<[freeIndex:=Some ws]> (players rm))
                            (<[ws:=symbol]> (symbols rm))
                            (board rm) (turn rm) (gameOver rm) in
            let rooms' := rooms_set code rm' rooms in
            (rooms',
             safeSend isOpen (Some ws) (MJoined code (Some symbol))
             ++ safeSend isOpen (Some ws) (state_msg rooms' code)
             ++ broadcastRoom isOpen rooms' code (MInfo msg_joined2)
             ++ broadcastRoom isOpen rooms' code (state_msg rooms' code))
        end
  end.

(** *** move *)

(** The outcome of the checks that precede the write to the board. *)
Inductive move_check :=
| MoveIgnored
| MoveError (message : string)
| MoveOk (code : string) (rm : room) (you : string) (i : number).

(** Lines 135-162: every [return] before [room.board[i] = you]. *)
Definition move_validate `{JSString} (ws : conn) (roomCode : option string)
    (index : jsval) (rooms : registry) : move_check :=
  let code := normalize roomCode in
  match rooms_get code rooms with
  | None => MoveIgnored
  | Some rm =>
      match symbols rm !! ws with
      | None => MoveError err_not_member
      | Some you =>
          if negb (truthy you) then MoveError err_not_member
          else if gameOver rm then MoveIgnored
          else
            match index with
            | VNumber i =>
                if js_lt i (Finite 0) || js_lt (Finite 8) i then MoveIgnored
                else if bool_decide (playersCount (players rm) < 2)
                then MoveError err_waiting
                else if negb (bool_decide (turn rm = you))
                then MoveError err_not_your_turn
                else if negb (bool_decide (array_get (board rm) i = Some ""))
                then MoveIgnored
                else MoveOk code rm you i
            | _ => MoveIgnored
            end
      end
  end.

(** Lines 164-191: the write, the scan of [WINS] and the broadcasts. *)
Definition move_apply (isOpen : conn → bool) (code : string) (rm : room)
    (you : string) (i : number) (rooms : registry) : registry * list send :=
  let bd := array_set (board rm) i you in
  let winner := scan_wins bd WINS in
  let draw := negb (truthy_opt winner) && board_full bd in
  if truthy_opt winner || draw then
    let rm' := Room (players rm) (symbols rm) bd (turn rm) true in
    let rooms' := rooms_set code rm' rooms in
    (rooms',
     broadcastRoom isOpen rooms' code
       (MGameOver (if truthy_opt winner then default "" winner else "D"))
     ++ broadcastRoom isOpen rooms' code (state_msg rooms' code))
  else
    let rm' := Room (players rm) (symbols rm) bd
                    (if bool_decide (turn rm = "X") then "O" else "X")
                    false in
    let rooms' := rooms_set code rm' rooms in
    (rooms', broadcastRoom isOpen rooms' code (state_msg rooms' code)).

Definition on_move `{JSString} (isOpen : conn → bool) (ws : conn)
    (roomCode : option string) (index : jsval) (rooms : registry)
  : registry * list send :=
  match move_validate ws roomCode index rooms with
  | MoveIgnored => (rooms, [])
  | MoveError m => (rooms, safeSend isOpen (Some ws) (MError m))
  | MoveOk code rm you i => move_apply isOpen code rm you i rooms
  end.

(** *** restart *)

Definition on_restart `{JSString} (isOpen : conn → bool) (ws : conn)
    (roomCode : option string) (rooms : registry) : registry * list send :=
  let code := normalize roomCode in
  match rooms_get code rooms with
  | None => (rooms, [])
  | Some rm =>
      if negb (truthy_opt (symbols rm !! ws)) then (rooms, [])
      else
        let rm' := Room (players rm) (symbols rm) (replicate 9 "") "X" false in
        let rooms' := rooms_set code rm' rooms in
        (rooms',
         broadcastRoom isOpen rooms' code (MInfo msg_restarted)
         ++ broadcastRoom isOpen rooms' code (state_msg rooms' code))
  end.

(** *** The message handler and the connection events *)

(** JavaScript truthiness. *)
Definition js_truthy (v : jsval) : bool :=
  match v with
  | VUndefined | VNull => false
  | VBool b => b
  | VNumber (Finite q) => negb (Qeq_bool q 0)
  | VNumber NaN => false
  | VNumber _ => true
  | VString s => truthy s
  | VObject => true
  end.

(** [(msg.roomCode || "")], on which the handlers call [.toUpperCase()].
    A string is passed as it is and a falsy field, [Some None], becomes [""].
    Any other value is truthy and has no such method, so that the call
    throws a [TypeError]: that is [None]. *)
Definition code_arg (roomCode : jsval) : option (option string) :=
  match roomCode with
  | VString s => Some (Some s)
  | v => if js_truthy v then None else Some None
  end.

(** An inbound message.  [Null] is the JSON text [null], on which reading
    [msg.type] throws.  [Create], [Join], [Move] and [Restart] are the
    objects with that [type], with the fields the handler reads of them,
    whatever their values.  [Other] is every other raw message: one that
    does not parse, for which the [catch] returns, and one that parses to a
    value with another [type] or none, which no branch takes up. *)
Inductive message :=
| Null
| Create
| Join (roomCode : jsval)
| Move (roomCode : jsval) (index : jsval)
| Restart (roomCode : jsval)
| Other.

(** The handler throws a [TypeError] on this message.  Nothing catches it:
    the process exits and its registry is gone. *)
Definition throws (msg : message) : bool :=
  match msg with
  | Null => true
  | Join roomCode | Move roomCode _ | Restart roomCode =>
      bool_decide (code_arg roomCode = None)
  | Create | Other => false
  end.

(** What a reaction reads from outside the registry: which connections are
    open, the results of [Math.random()], and a bound on the number of
    turns of the loop in [create]. *)
Record env := Env {
  isOpen : conn → bool;
  random : nat → Q;
  fuel : nat
}.

(** The reaction to a message.  [None]: the reaction does not return,
    because the handler throws or because the loop of [create] is still
    running when the fuel is spent. *)
Definition on_message `{JSString} (e : env) (ws : conn) (msg : message)
    (rooms : registry) : option (registry * list send) :=
  match msg with
  | Null => None
  | Create => on_create (isOpen e) (random e) (fuel e) ws rooms
  | Join roomCode =>
      rc ← code_arg roomCode; Some (on_join (isOpen e) ws rc rooms)
  | Move roomCode index =>
      rc ← code_arg roomCode; Some (on_move (isOpen e) ws rc index rooms)
  | Restart roomCode =>
      rc ← code_arg roomCode; Some (on_restart (isOpen e) ws rc rooms)
  | Other => Some (rooms, [])
  end.

Inductive event :=
| Connected (ws : conn)
| Message (ws : conn) (msg : message)
| Closed (ws : conn).

Definition react `{JSString} (e : env) (ev : event) (rooms : registry)
  : option (registry * list send) :=
  match ev with
  | Connected ws => Some (rooms, safeSend (isOpen e) (Some ws) (MHello msg_hello))
  | Message ws msg => on_message e ws msg rooms
  | Closed ws => Some (cleanupWs (isOpen e) ws rooms)
  end.

(** The registries the server can be in: a process starts with the empty
    registry and changes it only through reactions that return.  A reaction
    that throws ends the process; the next process starts empty again. *)
Inductive reachable `{JSString} : registry → Prop :=
| reachable_init : reachable []
| reachable_step e ev rooms rooms' out :
    reachable rooms →
    random_ok (random e) →
    react e ev rooms = Some (rooms', out) →
    reachable rooms'.

(** Running a list of events one after the other, under one environment. *)
Fixpoint run `{JSString} (e : env) (evs : list event) (rooms : registry)
  : option (registry * list send) :=
  match evs with
  | [] => Some (rooms, [])
  | ev :: rest =>
      '(rooms1, out1) ← react e ev rooms;
      '(rooms2, out2) ← run e rest rooms1;
      Some (rooms2, out1 ++ out2)
  end.

(** ** Well-formed registries *)

Definition valid_code (code : string) : Prop :=
  String.length code = 5 ∧ Forall in_alphabet (list_ascii_of_string code).

(** Number of cells of a board that hold [s]. *)
Definition count (s : string) (bd : list string) : nat :=
  length (filter (λ v, v = s) bd).

(** Cells holding ["X"] minus cells holding ["O"]. *)
Definition lead (bd : list string) : Z :=
  (Z.of_nat (count "X" bd) - Z.of_nat (count "O" bd))%Z.

Definition is_cell (v : string) : Prop := v = "" ∨ v = "X" ∨ v = "O".

Record room_ok (rm : room) : Prop := RoomOk {
  ok_slots : ∃ p0 p1, players rm = [p0; p1]
                      ∧ (is_Some p0 ∨ is_Some p1)
                      ∧ (is_Some p0 → p0 ≠ p1);
  ok_symbols : ∀ w s, symbols rm !! w = Some s ↔
                 (players rm !! 0 = Some (Some w) ∧ s = "X")
                 ∨ (players rm !! 1 = Some (Some w) ∧ s = "O");
  ok_board : length (board rm) = 9 ∧ Forall is_cell (board rm);
  ok_turn : turn rm = "X" ∨ turn rm = "O";
  ok_lead : if gameOver rm
            then lead (board rm) = 0%Z ∨ lead (board rm) = 1%Z
            else (turn rm = "X" ∧ lead (board rm) = 0%Z)
                 ∨ (turn rm = "O" ∧ lead (board rm) = 1%Z)
}.

Definition registry_ok (rooms : registry) : Prop :=
  NoDup rooms.*1 ∧ ∀ code rm, (code, rm) ∈ rooms → valid_code code ∧ room_ok rm.

(** ** Vocabulary of the statements *)

(** The message sent to every occupied slot of a room, slot 0 first. *)
Definition to_occupants (isOpen : conn → bool) (rm : room) (obj : outmsg)
  : list send :=
  p ← players rm; safeSend isOpen p obj.

(** What [roomState] shows of a room. *)
Definition view (rm : room) : room_view :=
  RoomView (board rm) (turn rm) (gameOver rm) (playersCount (players rm)).

(** ** Sample registries *)

(** Every connection open, [Math.random()] always 0, one try in [create]. *)
Definition sample_env : env := Env (λ _, true) (λ _, 0%Q) 1.

Definition cell (z : Z) : jsval := VNumber (Finite (inject_Z z)).

(** Connection 1 has created the room ["AAAAA"]. *)
Definition sample_waiting : registry := [("AAAAA", new_room 1)].

(** Connection 2 has joined it. *)
Definition sample_playing : registry :=
  [("AAAAA", Room [Some 1; Some 2] (<[2:="O"]> {[1:="X"]})
                  (replicate 9 "") "X" false)].

(** X has played 0 and 1, O has played 4 and 5. *)
Definition sample_before_win : registry :=
  [("AAAAA", Room [Some 1; Some 2] (<[2:="O"]> {[1:="X"]})
                  ["X"; "X"; ""; ""; "O"; "O"; ""; ""; ""] "X" false)].

(** X has played 0, 1 and 2, O has played 4 and 5. *)
Definition sample_won : registry :=
  [("AAAAA", Room [Some 1; Some 2] (<[2:="O"]> {[1:="X"]})
                  ["X"; "X"; "X"; ""; "O"; "O"; ""; ""; ""] "X" true)].

(** X has played 0, 4, 5 and 6, O has played 1, 2, 3 and 8: one cell is
    left and no line can be completed. *)
Definition sample_before_draw : registry :=
  [("AAAAA", Room [Some 1; Some 2] (<[2:="O"]> {[1:="X"]})
                  ["X"; "O"; "O"; "O"; "X"; "X"; "X"; ""; "O"] "X" false)].

(** [Math.random()] gives 0 five times and 1/2 from then on, so that the
    first code made is ["AAAAA"] and the second ["SSSSS"]; two tries in
    [create]. *)
Definition sample_env2 : env :=
  Env (λ _, true) (λ k, if decide (k < 5) then 0%Q else (1 # 2)%Q) 2.

(** Connection 3 has created a second room beside the one being played. *)
Definition sample_two_rooms : registry :=
  [("AAAAA", Room [Some 1; Some 2] (<[2:="O"]> {[1:="X"]})
                  (replicate 9 "") "X" false);
   ("SSSSS", new_room 3)].

(** ** The conditions of a move, as the specification words them *)

(** An index that names a cell: a number that is an integer in [[0, 8]]. *)
Definition cell_index (index : jsval) : option nat :=
  match index with
  | VNumber i => k ← array_index i; if decide (k ≤ 8) then Some k else None
  | _ => None
  end.

(** A number that passes the two range comparisons of [move]. *)
Definition in_range (i : number) : bool :=
  negb (js_lt i (Finite 0)) && negb (js_lt (Finite 8) i).

(** The move reaches the write to the board. *)
Definition move_accepted `{JSString} (ws : conn) (roomCode : option string)
    (index : jsval) (rooms : registry) : Prop :=
  ∃ code rm you i, move_validate ws roomCode index rooms = MoveOk code rm you i.

(** The seven conditions: the room exists, the requester occupies a slot of
    it, the game is not over, the index is an integer in [[0, 8]], both
    slots are occupied, the requester's symbol is the one to move, and the
    target cell is empty. *)
Definition move_conditions `{JSString} (ws : conn) (roomCode : option string)
    (index : jsval) (rooms : registry) : Prop :=
  ∃ rm k,
    rooms_get (normalize roomCode) rooms = Some rm
    ∧ Some ws ∈ players rm
    ∧ gameOver rm = false
    ∧ cell_index index = Some k
    ∧ Forall is_Some (players rm)
    ∧ symbols rm !! ws = Some (turn rm)
    ∧ board rm !! k = Some "".

(** The same two for a move intent as it arrives, with a [roomCode] of any
    type: the handler gets past the normalisation of the code and reaches
    the write; the intent names a room, which a [roomCode] that is truthy
    and not a string does not, and the seven conditions hold of it. *)
Definition intent_accepted `{JSString} (ws : conn) (roomCode index : jsval)
    (rooms : registry) : Prop :=
  ∃ rc, code_arg roomCode = Some rc ∧ move_accepted ws rc index rooms.

Definition intent_conditions `{JSString} (ws : conn) (roomCode index : jsval)
    (rooms : registry) : Prop :=
  ∃ rc, code_arg roomCode = Some rc ∧ move_conditions ws rc index rooms.

(** What the requester observes of the checks. *)
Inductive verdict :=
| Accepted
| Ignored
| Refused (message : string).

Definition verdict_of (c : move_check) : verdict :=
  match c with
  | MoveIgnored => Ignored
  | MoveError m => Refused m
  | MoveOk _ _ _ _ => Accepted
  end.

(** The checks in the order of the specification, stopping at the first that
    fails.  [index_ok] is the fourth check and [cell_empty] the seventh. *)
Definition checks_in_order `{JSString} (index_ok : jsval → bool)
    (cell_empty : list string → jsval → bool)
    (ws : conn) (roomCode : option string) (index : jsval) (rooms : registry)
  : verdict :=
  match rooms_get (normalize roomCode) rooms with
  | None => Ignored
  | Some rm =>
      if negb (includes (players rm) ws) then Refused err_not_member
      else if gameOver rm then Ignored
      else if negb (index_ok index) then Ignored
      else if negb (bool_decide (Forall is_Some (players rm)))
      then Refused err_waiting
      else if negb (bool_decide (symbols rm !! ws = Some (turn rm)))
      then Refused err_not_your_turn
      else if negb (cell_empty (board rm) index) then Ignored
      else Accepted
  end.

(** Fourth check as the specification has it: an integer in [[0, 8]]. *)
Definition integer_0_8 (index : jsval) : bool :=
  bool_decide (is_Some (cell_index index)).

(** Seventh check as the specification has it: the target cell is empty. *)
Definition cell_is_empty (bd : list string) (index : jsval) : bool :=
  match cell_index index with
  | Some k => bool_decide (bd !! k = Some "")
  | None => false
  end.

(** Fourth check as the code has it: a number within [[0, 8]]. *)
Definition number_0_8 (index : jsval) : bool :=
  match index with
  | VNumber i => in_range i
  | _ => false
  end.

(** Seventh check as the code has it: [board[index] === ""]. *)
Definition lookup_is_empty (bd : list string) (index : jsval) : bool :=
  match index with
  | VNumber i => bool_decide (array_get bd i = Some "")
  | _ => false
  end.

(** ** The lines of the board *)

(** The cells of row [r] and of column [c] of a board indexed row by row,
    and the two diagonals. *)
Definition row (r : nat) : nat * nat * nat := (3 * r, 3 * r + 1, 3 * r + 2).
Definition column (c : nat) : nat * nat * nat := (c, c + 3, c + 6).
Definition diagonals : list (nat * nat * nat) := [(0, 4, 8); (2, 4, 6)].

(** The three cells of a line hold the same non-empty value [v]. *)
Definition line_of (bd : list string) (line : nat * nat * nat) (v : string)
  : Prop :=
  v ≠ "" ∧ bd !! line.1.1 = Some v ∧ bd !! line.1.2 = Some v
  ∧ bd !! line.2 = Some v.

(** [line] is the first line of [lines] that is won, and [v] its value. *)
Definition first_line (bd : list string) (lines : list (nat * nat * nat))
    (line : nat * nat * nat) (v : string) : Prop :=
  ∃ before after,
    lines = before ++ line :: after
    ∧ Forall (λ l, ∀ u, ¬ line_of bd l u) before
    ∧ line_of bd line v.

(** ** Vocabulary for room codes and disconnects *)

(** The code made by the [t]-th call of [makeRoomCode] in a reaction. *)
Definition attempt (rnd : nat → Q) (t : nat) : string :=
  makeRoomCode rnd (5 * t).

(** Characters that are easily mistaken for one another. *)
Definition ambiguous : list ascii := ["0"; "O"; "1"; "I"]%char.

(** The first room, in the order of the registry, that has [ws] in a slot,
    with the index of that slot. *)
Fixpoint room_of (ws : conn) (rooms : registry)
  : option (string * room * nat) :=
  match rooms with
  | [] => None
  | (code, rm) :: rest =>
      match indexOf (players rm) ws with
      | Some idx => Some (code, rm, idx)
      | None => room_of ws rest
      end
  end.

(** A room after [ws] has left its slot [idx]. *)
Definition vacate (ws : conn) (idx : nat) (rm : room) : room :=
  Room (<[idx:=None]> (players rm)) (delete ws (symbols rm))
       (board rm) (turn rm) (gameOver rm).

(** A room after [restart]. *)
Definition restarted (rm : room) : room :=
  Room (players rm) (symbols rm) (replicate 9 "") "X" false.

(** The symbol bound to a slot. *)
Definition symbol_of_slot (idx : nat) : string :=
  if decide (idx = 0) then "X" else "O".

(** The error messages that the server reports. *)
Definition reported : list string :=
  [err_not_found; err_full; err_not_member; err_waiting; err_not_your_turn].

(** ** Vocabulary for the further properties *)

(** The game of a room is over exactly when a line is won or no cell is
    empty. *)
Definition room_settled (rm : room) : Prop :=
  gameOver rm = true
  ↔ is_Some (scan_wins (board rm) WINS) ∨ board_full (board rm) = true.

(** The connection an event comes from. *)
Definition event_conn (ev : event) : conn :=
  match ev with
  | Connected ws | Message ws _ | Closed ws => ws
  end.

(** The room code a message names, when it names one. *)
Definition named_code `{JSString} (msg : message) : option string :=
  match msg with
  | Join roomCode | Move roomCode _ | Restart roomCode =>
      normalize <$> code_arg roomCode
  | Null | Create | Other => None
  end.

(** [ws] holds a slot in at most the room [code]. *)
Definition only_in (ws : conn) (code : string) (rooms : registry) : Prop :=
  ∀ c rm, rooms_get c rooms = Some rm → Some ws ∈ players rm → c = code.

(** What holds of a message [x] sent in the reaction to an event of [ws]
    that leaves the registry [rooms']: it goes to an open connection, which
    is [ws] or an occupant of a room, and a state message shows a room that
    its receiver occupies as the reaction leaves it. *)
Definition well_sent (isOpen : conn → bool) (ws : conn) (rooms' : registry)
    (x : send) : Prop :=
  isOpen x.1 = true
  ∧ (x.1 = ws
     ∨ ∃ code rm, rooms_get code rooms' = Some rm ∧ Some x.1 ∈ players rm)
  ∧ ∀ st, x.2 = MState st →
      ∃ code rm, rooms_get code rooms' = Some rm
                 ∧ Some x.1 ∈ players rm
                 ∧ st = Some (view rm).

(** ** Facts about the registry operations *)

Section Registry.
Implicit Types (rooms : registry) (code : string) (rm : room).

Lemma rooms_get_elem_of rooms code rm :
  rooms_get code rooms = Some rm → (code, rm) ∈ rooms.
Proof.
  induction rooms as [|[c r] rest IH]; simpl; [done|].
  case_decide; intros Hg.
  - simplify_eq. left.
  - right. auto.
Qed.

Lemma rooms_get_None rooms code :
  rooms_get code rooms = None ↔ code ∉ rooms.*1.
Proof.
  induction rooms as [|[c r] rest IH]; simpl.
  - split; [intros _; apply not_elem_of_nil | done].
  - case_decide; subst.
    + split; [done|]. intros Hx. exfalso. apply Hx. left.
    + rewrite IH, not_elem_of_cons.
      split; [intros ?; split; [congruence|done] | by intros [_ ?]].
Qed.

Lemma elem_of_rooms_get rooms code rm :
  NoDup rooms.*1 → (code, rm) ∈ rooms → rooms_get code rooms = Some rm.
Proof.
  induction rooms as [|[c r] rest IH]; simpl; intros Hnd Hin.
  - by apply elem_of_nil in Hin.
  - apply NoDup_cons in Hnd as [Hc Hnd].
    apply elem_of_cons in Hin as [Heq|Hin].
    + simplify_eq. by rewrite decide_True.
    + case_decide; subst.
      * exfalso. apply Hc. apply list_elem_of_fmap. by exists (code, rm).
      * auto.
Qed.

Lemma rooms_has_true rooms code :
  rooms_has code rooms = true ↔ code ∈ rooms.*1.
Proof.
  unfold rooms_has. rewrite bool_decide_eq_true.
  destruct (rooms_get code rooms) as [rm|] eqn:E.
  - split; [intros _|eauto].
    apply list_elem_of_fmap. exists (code, rm).
    split; [done|]. by apply rooms_get_elem_of.
  - apply rooms_get_None in E. split; [intros [? ?]; done | done].
Qed.

Lemma rooms_has_false rooms code :
  rooms_has code rooms = false ↔ rooms_get code rooms = None.
Proof.
  unfold rooms_has. rewrite bool_decide_eq_false.
  destruct (rooms_get code rooms) as [rm|].
  - split; [|done]. intros Hn. exfalso. apply Hn. eauto.
  - split; [done|]. by intros _ [? ?].
Qed.

Lemma rooms_get_set_eq rooms code rm :
  rooms_get code (rooms_set code rm rooms) = Some rm.
Proof.
  induction rooms as [|[c r] rest IH]; simpl.
  - by rewrite decide_True.
  - case_decide; simpl.
    + by rewrite decide_True.
    + by rewrite decide_False.
Qed.

Lemma rooms_get_set_ne rooms code code' rm :
  code ≠ code' →
  rooms_get code' (rooms_set code rm rooms) = rooms_get code' rooms.
Proof.
  intros Hne. induction rooms as [|[c r] rest IH]; simpl.
  - by rewrite decide_False.
  - case_decide; simpl; subst.
    + by rewrite !decide_False.
    + case_decide; auto.
Qed.

Lemma rooms_set_keys_present rooms code rm :
  code ∈ rooms.*1 → (rooms_set code rm rooms).*1 = rooms.*1.
Proof.
  induction rooms as [|[c r] rest IH]; simpl; intros Hin.
  - by apply elem_of_nil in Hin.
  - case_decide; [done|]. simpl. f_equal. apply IH.
    apply elem_of_cons in Hin as [?|?]; [congruence|done].
Qed.

Lemma rooms_set_keys_absent rooms code rm :
  code ∉ rooms.*1 → (rooms_set code rm rooms).*1 = rooms.*1 ++ [code].
Proof.
  induction rooms as [|[c r] rest IH]; simpl; intros Hin; [done|].
  apply not_elem_of_cons in Hin as [? ?].
  rewrite decide_False by done. simpl. f_equal. auto.
Qed.

Lemma elem_of_rooms_set rooms code rm c r :
  (c, r) ∈ rooms_set code rm rooms → (c, r) = (code, rm) ∨ (c, r) ∈ rooms.
Proof.
  induction rooms as [|[c0 r0] rest IH]; simpl.
  - intros H. apply list_elem_of_singleton in H. auto.
  - case_decide; subst; rewrite !elem_of_cons; naive_solver.
Qed.

Lemma rooms_delete_subseteq rooms code : rooms_delete code rooms ⊆ rooms.
Proof.
  induction rooms as [|[c r] rest IH]; simpl; [done|].
  case_decide.
  - apply list_subseteq_cons. done.
  - intros x. rewrite !elem_of_cons. naive_solver.
Qed.

Lemma rooms_delete_keys rooms code :
  NoDup rooms.*1 →
  NoDup (rooms_delete code rooms).*1
  ∧ (code ∉ (rooms_delete code rooms).*1)
  ∧ ((rooms_delete code rooms).*1 ⊆ rooms.*1).
Proof.
  induction rooms as [|[c r] rest IH]; simpl; intros Hnd.
  - split; [done|]. split; [apply not_elem_of_nil | done].
  - apply NoDup_cons in Hnd as [Hc Hnd]. destruct (IH Hnd) as (H1 & H2 & H3).
    case_decide; subst.
    + split; [done|]. split; [done|]. apply list_subseteq_cons. done.
    + simpl. split; [|split].
      * apply NoDup_cons. split; [|done]. intros Hin. apply Hc. by apply H3.
      * apply not_elem_of_cons. split; [congruence | done].
      * intros x. rewrite !elem_of_cons. naive_solver.
Qed.

Lemma rooms_get_delete_eq rooms code :
  NoDup rooms.*1 → rooms_get code (rooms_delete code rooms) = None.
Proof. intros Hnd. apply rooms_get_None. by apply rooms_delete_keys. Qed.

Lemma rooms_get_delete_ne rooms code code' :
  code ≠ code' →
  rooms_get code' (rooms_delete code rooms) = rooms_get code' rooms.
Proof.
  intros Hne. induction rooms as [|[c r] rest IH]; simpl; [done|].
  case_decide; simpl; subst.
  - by rewrite decide_False.
  - case_decide; auto.
Qed.

Lemma rooms_delete_set rooms code rm :
  rooms_delete code (rooms_set code rm rooms) = rooms_delete code rooms.
Proof.
  induction rooms as [|[c r] rest IH]; simpl.
  - by rewrite decide_True.
  - case_decide; simpl.
    + by rewrite decide_True.
    + rewrite decide_False by done. by rewrite IH.
Qed.

Lemma registry_ok_nil : registry_ok [].
Proof.
  split; [constructor|]. intros ? ? H. by apply elem_of_nil in H.
Qed.

Lemma registry_ok_get rooms code rm :
  registry_ok rooms → rooms_get code rooms = Some rm →
  valid_code code ∧ room_ok rm.
Proof. intros [_ H] Hg. apply H. by apply rooms_get_elem_of. Qed.

Lemma registry_ok_set rooms code rm :
  registry_ok rooms → valid_code code → room_ok rm →
  registry_ok (rooms_set code rm rooms).
Proof.
  intros [Hnd Hall] Hc Hr. split.
  - destruct (decide (code ∈ rooms.*1)) as [Hin|Hin].
    + by rewrite rooms_set_keys_present.
    + rewrite rooms_set_keys_absent by done.
      apply NoDup_app. split; [done|]. split; [|apply NoDup_singleton].
      intros x Hx Hx'. apply list_elem_of_singleton in Hx'. by subst.
  - intros c r Hin. apply elem_of_rooms_set in Hin as [Heq|Hin].
    + by simplify_eq.
    + by apply Hall.
Qed.

Lemma registry_ok_delete rooms code :
  registry_ok rooms → registry_ok (rooms_delete code rooms).
Proof.
  intros [Hnd Hall]. split.
  - by apply rooms_delete_keys.
  - intros c r Hin. apply Hall. by apply (rooms_delete_subseteq rooms code).
Qed.
End Registry.

(** ** Facts about room codes *)

Section Codes.
Context {js : JSString}.
Lemma string_get_lookup (s : string) (n : nat) :
  String.get n s = list_ascii_of_string s !! n.
Proof.
  revert n. induction s as [|c s IH]; intros [|n]; simpl; auto.
Qed.

Lemma list_ascii_app (s1 s2 : string) :
  list_ascii_of_string (s1 +:+ s2)
  = list_ascii_of_string s1 ++ list_ascii_of_string s2.
Proof. induction s1 as [|c s1 IH]; simpl; [done|]. by rewrite IH. Qed.

Lemma string_length_list (s : string) :
  String.length s = length (list_ascii_of_string s).
Proof. induction s as [|c s IH]; simpl; [done|]. by rewrite IH. Qed.

Lemma random_index_range (r : Q) :
  (0 <= r)%Q → (r < 1)%Q → (0 ≤ random_index r < 32)%Z.
Proof.
  intros H0 H1. unfold random_index.
  change (Z.of_nat (String.length chars)) with 32%Z.
  split.
  - change 0%Z with (Qfloor 0). apply Qfloor_resp_le.
    apply Qmult_le_0_compat; [done|]. by apply Qle_bool_imp_le.
  - rewrite Zlt_Qlt.
    eapply Qle_lt_trans; [apply Qfloor_le|].
    eapply Qlt_le_trans;
      [apply Qmult_lt_compat_r; [reflexivity | exact H1] |].
    by vm_compute.
Qed.

Lemma char_at_alphabet (z : Z) :
  (0 ≤ z < 32)%Z → ∃ c, char_at chars z = Some c ∧ in_alphabet c.
Proof.
  intros Hz. unfold char_at.
  destruct (Z.ltb_spec z 0) as [?|_]; [lia|].
  rewrite string_get_lookup.
  destruct (lookup_lt_is_Some_2 (list_ascii_of_string chars) (Z.to_nat z))
    as [c Hc].
  { change (length (list_ascii_of_string chars)) with 32. lia. }
  exists c. split; [done|]. by eapply list_elem_of_lookup_2.
Qed.

Lemma makeRoomCode_loop_valid (n : nat) (rnd : nat → Q) (k : nat)
    (code : string) :
  random_ok rnd →
  Forall in_alphabet (list_ascii_of_string code) →
  String.length (makeRoomCode_loop n rnd k code) = String.length code + n
  ∧ Forall in_alphabet (list_ascii_of_string (makeRoomCode_loop n rnd k code)).
Proof.
  intros Hrnd. revert k code.
  induction n as [|n IH]; intros k code Hcode; simpl.
  - split; [lia | done].
  - destruct (Hrnd k) as [H0 H1].
    destruct (char_at_alphabet _ (random_index_range _ H0 H1))
      as (c & -> & Hc).
    destruct (IH (S k) (append_char code (Some c))) as [Hl Hf].
    { unfold append_char. rewrite list_ascii_app.
      apply Forall_app. split; [done|]. simpl. by constructor. }
    split; [|done]. rewrite Hl. unfold append_char.
    rewrite !string_length_list, list_ascii_app, length_app. simpl. lia.
Qed.

Lemma makeRoomCode_valid (rnd : nat → Q) (k : nat) :
  random_ok rnd → valid_code (makeRoomCode rnd k).
Proof.
  intros Hrnd.
  destruct (makeRoomCode_loop_valid 5 rnd k "" Hrnd) as [Hl Hf];
    [constructor|].
  split; [exact Hl | exact Hf].
Qed.

(** A code made by [makeRoomCode] is its own normal form. *)
Lemma normalize_valid (code : string) :
  valid_code code → normalize (Some code) = code.
Proof.
  intros [_ Hcode]. unfold normalize. simpl.
  rewrite (toUpperCase_code _ Hcode). by apply trim_code.
Qed.

(** The empty string is a string over the alphabet, so it normalises to
    itself. *)
Lemma normalize_empty : normalize None = "".
Proof.
  unfold normalize. simpl. rewrite (toUpperCase_code "") by constructor.
  by apply trim_code.
Qed.
End Codes.

(** ** Facts about one room *)

Section Rooms.
Context {js : JSString}.
Implicit Types (rm : room) (bd : list string) (ws w : conn).

Lemma count_cons (s v : string) bd :
  count s (v :: bd) = (if decide (v = s) then 1 else 0) + count s bd.
Proof. unfold count. rewrite filter_cons. by case_decide. Qed.

Lemma count_insert (s v old : string) bd (k : nat) :
  bd !! k = Some old →
  count s (<[k:=v]> bd) + (if decide (old = s) then 1 else 0)
  = count s bd + (if decide (v = s) then 1 else 0).
Proof.
  revert k. induction bd as [|x bd IH]; intros [|k] Hk; simplify_eq/=.
  - rewrite !count_cons. lia.
  - rewrite !count_cons. specialize (IH k Hk). lia.
Qed.

Lemma lead_insert_X bd (k : nat) :
  bd !! k = Some "" → lead (<[k:="X"]> bd) = (lead bd + 1)%Z.
Proof.
  intros Hk. unfold lead.
  pose proof (count_insert "X" "X" "" bd k Hk) as HX.
  pose proof (count_insert "O" "X" "" bd k Hk) as HO.
  rewrite decide_False in HX by done. rewrite decide_True in HX by done.
  rewrite !decide_False in HO by done. lia.
Qed.

Lemma lead_insert_O bd (k : nat) :
  bd !! k = Some "" → lead (<[k:="O"]> bd) = (lead bd - 1)%Z.
Proof.
  intros Hk. unfold lead.
  pose proof (count_insert "X" "O" "" bd k Hk) as HX.
  pose proof (count_insert "O" "O" "" bd k Hk) as HO.
  rewrite !decide_False in HX by done.
  rewrite decide_False in HO by done. rewrite decide_True in HO by done.
  lia.
Qed.

(** A non-negative integer that the range check lets through. *)
Lemma array_get_Some {A} (arr : list A) (i : number) (x : A) :
  array_get arr i = Some x ↔
  ∃ k, array_index i = Some k ∧ arr !! k = Some x.
Proof.
  unfold array_get. destruct (array_index i) as [k|]; simpl.
  - split; [eauto|]. by intros (? & [= <-] & ?).
  - split; [done|]. by intros (? & ? & ?).
Qed.

Lemma truthy_true (s : string) : truthy s = true ↔ s ≠ "".
Proof.
  unfold truthy. rewrite negb_true_iff, bool_decide_eq_false. done.
Qed.

(** In a well-formed room the symbol table and the slots agree. *)
Lemma room_ok_member rm ws :
  room_ok rm → Some ws ∈ players rm ↔ is_Some (symbols rm !! ws).
Proof.
  intros [(p0 & p1 & Hp & _ & _) Hsym _ _ _]. rewrite Hp in *. split.
  - intros Hin. apply elem_of_cons in Hin as [Heq|Hin].
    + subst p0. exists "X". apply Hsym. by left.
    + apply list_elem_of_singleton in Hin. subst p1.
      exists "O". apply Hsym. by right.
  - intros [s Hs]. apply Hsym in Hs as [[Hs _]|[Hs _]]; simplify_eq/=.
    + left.
    + right. left.
Qed.

Lemma room_ok_symbol rm ws s :
  room_ok rm → symbols rm !! ws = Some s →
  (s = "X" ∨ s = "O") ∧ truthy s = true.
Proof.
  intros [_ Hsym _ _ _] Hs.
  apply Hsym in Hs as [[_ ->]|[_ ->]]; split; auto.
Qed.

Lemma room_ok_truthy rm ws :
  room_ok rm → truthy_opt (symbols rm !! ws) = true ↔ Some ws ∈ players rm.
Proof.
  intros Hok. rewrite (room_ok_member rm ws Hok).
  destruct (symbols rm !! ws) as [s|] eqn:Hs; simpl.
  - destruct (room_ok_symbol rm ws s Hok Hs) as [_ ->].
    split; [eauto | done].
  - split; [done | by intros [? ?]].
Qed.

Lemma includes_true rm ws :
  includes (players rm) ws = true ↔ Some ws ∈ players rm.
Proof. unfold includes. by rewrite bool_decide_eq_true. Qed.

Lemma room_ok_new ws : room_ok (new_room ws).
Proof.
  split; simpl.
  - exists (Some ws), None. split; [done|]. split; [by left | done].
  - intros w s. rewrite lookup_singleton_Some. naive_solver.
  - split; [done|]. repeat constructor; by left.
  - by left.
  - by left.
Qed.

(** [join] into a free slot. *)
Lemma room_ok_join rm ws freeIndex :
  room_ok rm →
  includes (players rm) ws = false →
  findIndex_free (players rm) = Some freeIndex →
  room_ok (Room (<[freeIndex:=Some ws]> (players rm))
                (<[ws:=if decide (freeIndex = 0) then "X" else "O"]>
                   (symbols rm))
                (board rm) (turn rm) (gameOver rm)).
Proof.
  intros [(p0 & p1 & Hp & Hocc & Hne) Hsym Hbd Hturn Hlead] Hinc Hfree.
  destruct rm as [ps sy bd tn go]; simpl in *; subst ps.
  apply bool_decide_eq_false in Hinc.
  rewrite !not_elem_of_cons in Hinc. destruct Hinc as (H0 & H1 & _).
  unfold findIndex_free in Hfree.
  destruct p0 as [a|], p1 as [b|]; simplify_eq/=.
  - split; simpl; try done.
    + exists (Some a), (Some ws). split; [done|]. split; [eauto|].
      intros _. congruence.
    + intros w s. rewrite lookup_insert_Some, Hsym. simpl. naive_solver.
  - split; simpl; try done.
    + exists (Some ws), (Some b). split; [done|]. split; [eauto|].
      intros _. congruence.
    + intros w s. rewrite lookup_insert_Some, Hsym. simpl. naive_solver.
  - destruct Hocc as [[? ?]|[? ?]]; done.
Qed.

(** [cleanupWs] vacating a slot while the other one stays occupied. *)
Lemma room_ok_vacate rm ws idx :
  room_ok rm →
  indexOf (players rm) ws = Some idx →
  every_free (<[idx:=None]> (players rm)) = false →
  room_ok (Room (<[idx:=None]> (players rm)) (delete ws (symbols rm))
                (board rm) (turn rm) (gameOver rm)).
Proof.
  intros [(p0 & p1 & Hp & Hocc & Hne) Hsym Hbd Hturn Hlead] Hidx Hfree.
  destruct rm as [ps sy bd tn go]; simpl in *; subst ps.
  unfold indexOf in Hidx. simpl in Hidx.
  destruct (decide (p0 = Some ws)) as [->|Hp0]; simplify_eq/=.
  - destruct p1 as [b|]; [|done].
    split; simpl; try done.
    + exists None, (Some b). split; [done|]. split; [eauto|]. by intros [? ?].
    + intros w s. rewrite lookup_delete_Some, Hsym. simpl.
      assert (Some ws ≠ Some b) by (apply Hne; eauto). naive_solver.
  - destruct (decide (p1 = Some ws)) as [->|Hp1]; simplify_eq/=.
    destruct p0 as [a|]; [|done].
    split; simpl; try done.
    + exists (Some a), None. split; [done|]. split; [eauto|]. done.
    + intros w s. rewrite lookup_delete_Some, Hsym. simpl. naive_solver.
Qed.

Lemma room_ok_restart rm :
  room_ok rm →
  room_ok (Room (players rm) (symbols rm) (replicate 9 "") "X" false).
Proof.
  intros [Hp Hsym Hbd Hturn Hlead]. split; simpl; try done.
  - split; [done|]. repeat constructor; by left.
  - by left.
  - by left.
Qed.
End Rooms.

(** ** Reactions keep the registry well formed *)

Section Preservation.
Context {js : JSString}.
Implicit Types (rooms : registry) (rm : room) (ws : conn).

(** What the checks of [move] have established when the write is reached. *)
Lemma move_validate_ok ws roomCode index rooms code rm you i :
  move_validate ws roomCode index rooms = MoveOk code rm you i ↔
  code = normalize roomCode
  ∧ rooms_get code rooms = Some rm
  ∧ symbols rm !! ws = Some you
  ∧ truthy you = true
  ∧ gameOver rm = false
  ∧ index = VNumber i
  ∧ js_lt i (Finite 0) = false
  ∧ js_lt (Finite 8) i = false
  ∧ 2 ≤ playersCount (players rm)
  ∧ turn rm = you
  ∧ array_get (board rm) i = Some "".
Proof.
  split.
  - unfold move_validate. intros H.
    repeat (case_match; try discriminate). simplify_eq.
    repeat match goal with
           | Hb : negb _ = false |- _ => apply negb_false_iff in Hb
           | Hb : _ || _ = false |- _ => apply orb_false_iff in Hb as [? ?]
           | Hb : bool_decide _ = true |- _ => apply bool_decide_eq_true in Hb
           | Hb : bool_decide _ = false |- _ =>
               apply bool_decide_eq_false in Hb
           end.
    repeat split; try done. lia.
  - intros (-> & Hg & Hs & Ht & Hgo & -> & Hlo & Hhi & Hcnt & Hturn & Hcell).
    unfold move_validate. rewrite Hg, Hs, Ht, Hgo, Hlo, Hhi. simpl.
    rewrite bool_decide_false by lia.
    by rewrite !bool_decide_true by done.
Qed.

Lemma room_ok_move rm ws you i (k : nat) :
  room_ok rm →
  symbols rm !! ws = Some you →
  turn rm = you →
  gameOver rm = false →
  array_index i = Some k →
  board rm !! k = Some "" →
  room_ok (Room (players rm) (symbols rm) (array_set (board rm) i you)
                (turn rm) true)
  ∧ room_ok (Room (players rm) (symbols rm) (array_set (board rm) i you)
                  (if bool_decide (turn rm = "X") then "O" else "X") false).
Proof.
  intros Hok Hs Hturn Hgo Hi Hk.
  destruct (room_ok_symbol rm ws you Hok Hs) as [Hyou _].
  destruct Hok as [Hp Hsym [Hlen Hcells] _ Hlead].
  rewrite Hgo in Hlead. unfold array_set. rewrite Hi.
  assert (Hbd : length (<[k:=you]> (board rm)) = 9
                ∧ Forall is_cell (<[k:=you]> (board rm))).
  { split; [by rewrite length_insert|].
    apply Forall_insert; [done|]. unfold is_cell. tauto. }
  destruct Hyou as [-> | ->].
  - destruct Hlead as [[_ Hl]|[Ht _]]; [|congruence].
    pose proof (lead_insert_X _ _ Hk) as Hl'. rewrite Hl in Hl'.
    split; split; simpl; try done; rewrite ?Hturn; auto.
  - destruct Hlead as [[Ht _]|[_ Hl]]; [congruence|].
    pose proof (lead_insert_O _ _ Hk) as Hl'. rewrite Hl in Hl'.
    split; split; simpl; try done; rewrite ?Hturn; auto.
Qed.

Lemma on_create_ok isOpen rnd fuel ws rooms rooms' out :
  random_ok rnd → registry_ok rooms →
  on_create isOpen rnd fuel ws rooms = Some (rooms', out) →
  registry_ok rooms'.
Proof.
  intros Hrnd Hok. unfold on_create.
  destruct (fresh_code fuel rnd 0 rooms) as [code|] eqn:Hc; [|done].
  simpl. intros [= <- _]. apply registry_ok_set; [done| |apply room_ok_new].
  clear -Hrnd Hc. revert Hc. generalize 0.
  induction fuel as [|fuel IH]; intros k; simpl; [done|].
  destruct (rooms_has _ rooms); [apply IH|].
  intros [= <-]. by apply makeRoomCode_valid.
Qed.

Lemma on_join_ok isOpen ws roomCode rooms :
  registry_ok rooms → registry_ok (on_join isOpen ws roomCode rooms).1.
Proof.
  intros Hok. unfold on_join.
  destruct (rooms_get _ rooms) as [rm|] eqn:Hg; [|done].
  destruct (registry_ok_get _ _ _ Hok Hg) as [Hc Hrm].
  destruct (includes (players rm) ws) eqn:Hinc; [done|].
  destruct (findIndex_free (players rm)) as [freeIndex|] eqn:Hfree; [|done].
  simpl. apply registry_ok_set; [done..|]. by apply room_ok_join.
Qed.

Lemma on_move_ok isOpen ws roomCode index rooms :
  registry_ok rooms → registry_ok (on_move isOpen ws roomCode index rooms).1.
Proof.
  intros Hok. unfold on_move.
  destruct (move_validate ws roomCode index rooms)
    as [|m|code rm you i] eqn:Hv; [done..|].
  apply move_validate_ok in Hv
    as (-> & Hg & Hs & _ & Hgo & _ & _ & _ & _ & Hturn & Hcell).
  apply array_get_Some in Hcell as (k & Hi & Hk).
  destruct (registry_ok_get _ _ _ Hok Hg) as [Hc Hrm].
  destruct (room_ok_move rm ws you i k Hrm Hs Hturn Hgo Hi Hk) as [H1 H2].
  unfold move_apply.
  destruct (_ || _); simpl; by apply registry_ok_set.
Qed.

Lemma on_restart_ok isOpen ws roomCode rooms :
  registry_ok rooms → registry_ok (on_restart isOpen ws roomCode rooms).1.
Proof.
  intros Hok. unfold on_restart.
  destruct (rooms_get _ rooms) as [rm|] eqn:Hg; [|done].
  destruct (registry_ok_get _ _ _ Hok Hg) as [Hc Hrm].
  destruct (negb _); [done|]. simpl.
  apply registry_ok_set; [done..|]. by apply room_ok_restart.
Qed.

Lemma cleanupWs_scan_ok isOpen ws rooms todo :
  registry_ok rooms → todo ⊆ rooms →
  registry_ok (cleanupWs_scan isOpen ws rooms todo).1.
Proof.
  intros Hok. induction todo as [|[code rm] rest IH]; intros Hsub; [done|].
  simpl.
  assert (Hin : (code, rm) ∈ rooms) by (apply Hsub; left).
  destruct Hok as [Hnd Hall]. destruct (Hall _ _ Hin) as [Hc Hrm].
  destruct (indexOf (players rm) ws) as [idx|] eqn:Hidx.
  - destruct (every_free _) eqn:Hfree; simpl.
    + rewrite rooms_delete_set. by apply registry_ok_delete.
    + apply registry_ok_set; [done..|]. by apply room_ok_vacate.
  - apply IH. intros x Hx. apply Hsub. by right.
Qed.

Lemma react_ok e ev rooms rooms' out :
  random_ok (random e) → registry_ok rooms →
  react e ev rooms = Some (rooms', out) → registry_ok rooms'.
Proof.
  intros Hrnd Hok. destruct ev as [ws|ws [| |v|v ix|v|]|ws]; simpl;
    try (destruct (code_arg v) as [rc|]; simpl; [|done]).
  - by intros [= <- _].
  - done.
  - by apply on_create_ok.
  - intros [= H]. rewrite (surjective_pairing (on_join _ _ _ _)) in H.
    simplify_eq. by apply on_join_ok.
  - intros [= H]. rewrite (surjective_pairing (on_move _ _ _ _ _)) in H.
    simplify_eq. by apply on_move_ok.
  - intros [= H]. rewrite (surjective_pairing (on_restart _ _ _ _)) in H.
    simplify_eq. by apply on_restart_ok.
  - by intros [= <- _].
  - intros [= H]. rewrite (surjective_pairing (cleanupWs _ _ _)) in H.
    simplify_eq. by apply cleanupWs_scan_ok.
Qed.

Theorem reachable_ok rooms : reachable rooms → registry_ok rooms.
Proof.
  induction 1 as [|e ev rooms rooms' out _ IH Hrnd Hstep].
  - apply registry_ok_nil.
  - by eapply react_ok.
Qed.
End Preservation.

(** ** Messages sent by a reaction *)

Section Sends.
Implicit Types (rooms : registry) (rm : room) (ws : conn).

Lemma broadcastRoom_get isOpen rooms code rm obj :
  rooms_get code rooms = Some rm →
  broadcastRoom isOpen rooms code obj = to_occupants isOpen rm obj.
Proof. intros Hg. unfold broadcastRoom. by rewrite Hg. Qed.

Lemma state_msg_get rooms code rm :
  rooms_get code rooms = Some rm → state_msg rooms code = MState (Some (view rm)).
Proof. intros Hg. unfold state_msg, roomState. by rewrite Hg. Qed.

Lemma broadcastRoom_set isOpen rooms code rm obj :
  broadcastRoom isOpen (rooms_set code rm rooms) code obj
  = to_occupants isOpen rm obj.
Proof. apply broadcastRoom_get, rooms_get_set_eq. Qed.

Lemma state_msg_set rooms code rm :
  state_msg (rooms_set code rm rooms) code = MState (Some (view rm)).
Proof. apply state_msg_get, rooms_get_set_eq. Qed.

Lemma to_occupants_recipient isOpen rm obj w m :
  (w, m) ∈ to_occupants isOpen rm obj → Some w ∈ players rm ∧ m = obj.
Proof.
  unfold to_occupants. intros H.
  apply list_elem_of_bind in H as (p & Hin & Hp).
  destruct p as [v|]; simpl in Hin; [|by apply elem_of_nil in Hin].
  destruct (isOpen v); [|by apply elem_of_nil in Hin].
  apply list_elem_of_singleton in Hin. by simplify_eq.
Qed.

Lemma to_occupants_both isOpen rm obj a b :
  players rm = [Some a; Some b] → isOpen a = true → isOpen b = true →
  to_occupants isOpen rm obj = [(a, obj); (b, obj)].
Proof.
  intros Hp Ha Hb. unfold to_occupants. rewrite Hp. simpl.
  by rewrite Ha, Hb.
Qed.
End Sends.

(** ** Sample runs *)

Section Samples.
Lemma sample_random_ok : random_ok (random sample_env).
Proof. intros k. simpl. split; [apply Qle_refl | reflexivity]. Qed.

Lemma reachable_run e evs rooms rooms' out :
  random_ok (random e) → reachable rooms →
  run e evs rooms = Some (rooms', out) → reachable rooms'.
Proof.
  intros Hrnd. revert rooms out.
  induction evs as [|ev evs IH]; intros rooms out Hr; simpl.
  - by intros [= <- _].
  - destruct (react e ev rooms) as [[rooms1 out1]|] eqn:Hstep; [|done].
    simpl. destruct (run e evs rooms1) as [[rooms2 out2]|] eqn:Hrun; [|done].
    simpl. intros [= <- _]. eapply IH; [|exact Hrun].
    by eapply reachable_step.
Qed.

Lemma reachable_waiting : reachable sample_waiting.
Proof.
  eapply (reachable_run sample_env [Message 1 Create] []);
    [apply sample_random_ok | constructor | reflexivity].
Qed.

Lemma reachable_playing : reachable sample_playing.
Proof.
  eapply (reachable_run sample_env [Message 2 (Join (VString "aaaaa "))]);
    [apply sample_random_ok | apply reachable_waiting | reflexivity].
Qed.

Lemma reachable_before_win : reachable sample_before_win.
Proof.
  eapply (reachable_run sample_env
            [Message 1 (Move (VString "AAAAA") (cell 0));
             Message 2 (Move (VString "AAAAA") (cell 4));
             Message 1 (Move (VString "AAAAA") (cell 1));
             Message 2 (Move (VString "AAAAA") (cell 5))]);
    [apply sample_random_ok | apply reachable_playing | reflexivity].
Qed.

Lemma reachable_won : reachable sample_won.
Proof.
  eapply (reachable_run sample_env
            [Message 1 (Move (VString "AAAAA") (cell 2))]);
    [apply sample_random_ok | apply reachable_before_win | reflexivity].
Qed.

Lemma reachable_before_draw : reachable sample_before_draw.
Proof.
  eapply (reachable_run sample_env
            [Message 1 (Move (VString "AAAAA") (cell 0));
             Message 2 (Move (VString "AAAAA") (cell 1));
             Message 1 (Move (VString "AAAAA") (cell 4));
             Message 2 (Move (VString "AAAAA") (cell 2));
             Message 1 (Move (VString "AAAAA") (cell 5));
             Message 2 (Move (VString "AAAAA") (cell 3));
             Message 1 (Move (VString "AAAAA") (cell 6));
             Message 2 (Move (VString "AAAAA") (cell 8))]);
    [apply sample_random_ok | apply reachable_playing | reflexivity].
Qed.

Lemma sample_random2_ok : random_ok (random sample_env2).
Proof.
  intros k. simpl. destruct (decide (k < 5)); split; by vm_compute.
Qed.

Lemma reachable_two_rooms : reachable sample_two_rooms.
Proof.
  eapply (reachable_run sample_env2 [Message 3 Create]);
    [apply sample_random2_ok | apply reachable_playing | reflexivity].
Qed.

(** X takes the top row: the fifth move ends the game and both players are
    told that X has won. *)
Example run_win :
  snd <$> run sample_env [Message 1 (Move (VString "AAAAA") (cell 2))]
            sample_before_win
  = Some [(1, MGameOver "X"); (2, MGameOver "X");
          (1, MState (Some (RoomView ["X"; "X"; "X"; ""; "O"; "O"; ""; ""; ""]
                              "X" true 2)));
          (2, MState (Some (RoomView ["X"; "X"; "X"; ""; "O"; "O"; ""; ""; ""]
                              "X" true 2)))].
Proof. reflexivity. Qed.

(** The ninth move fills the board without completing a line: a draw. *)
Example run_draw :
  snd <$> run sample_env [Message 1 (Move (VString "AAAAA") (cell 7))]
            sample_before_draw
  = Some [(1, MGameOver "D"); (2, MGameOver "D");
          (1, MState (Some (RoomView
                              ["X"; "O"; "O"; "O"; "X"; "X"; "X"; "X"; "O"]
                              "X" true 2)));
          (2, MState (Some (RoomView
                              ["X"; "O"; "O"; "O"; "X"; "X"; "X"; "X"; "O"]
                              "X" true 2)))].
Proof. reflexivity. Qed.

(** A disconnect of the only occupant removes the room. *)
Example run_last_leaves :
  fst <$> run sample_env [Closed 1] sample_waiting = Some [].
Proof. reflexivity. Qed.
End Samples.

(** ** The checks of a move *)

Section MoveChecks.
Context {js : JSString}.
Implicit Types (rooms : registry) (rm : room) (ws : conn).

(** For a non-negative integer the range comparisons bound the index. *)
Lemma array_index_in_range (i : number) (k : nat) :
  array_index i = Some k → in_range i = bool_decide (k ≤ 8).
Proof.
  destruct i as [[n d]| | |]; simpl; try done.
  case_decide as H; [|done]. destruct H as [Hmod Hpos]. intros [= <-].
  unfold in_range, js_lt, Qle_bool. simpl. rewrite !negb_involutive.
  assert (Hn : (n = Zpos d * (n / Zpos d))%Z)
    by (apply Z_div_exact_full_2; [lia | done]).
  assert (Hm : (0 ≤ n / Zpos d)%Z) by (apply Z.div_pos; lia).
  revert Hn Hm. generalize (n / Zpos d)%Z. intros m Hn Hm.
  case_bool_decide as Hk.
  - apply andb_true_iff. split; apply Z.leb_le; nia.
  - apply andb_false_iff. right. apply Z.leb_gt. nia.
Qed.

Lemma cell_index_Some (index : jsval) (k : nat) :
  cell_index index = Some k ↔
  ∃ i, index = VNumber i ∧ array_index i = Some k ∧ in_range i = true.
Proof.
  destruct index as [| |b|i|s|]; simpl;
    try (split; [done | by intros (? & ? & _)]).
  destruct (array_index i) as [k'|] eqn:Hi; simpl.
  - pose proof (array_index_in_range i k' Hi) as Hr.
    destruct (decide (k' ≤ 8)) as [Hk|Hk].
    + rewrite bool_decide_true in Hr by done.
      split; [intros [= <-]; eauto|]. intros (? & [= <-] & ? & _). congruence.
    + rewrite bool_decide_false in Hr by done.
      split; [done|]. intros (? & [= <-] & ? & ?). congruence.
  - split; [done|]. intros (? & [= <-] & ? & _). congruence.
Qed.

Lemma players_both rm :
  room_ok rm →
  playersCount (players rm) < 2 ↔ ¬ Forall is_Some (players rm).
Proof.
  intros [(p0 & p1 & -> & _ & _) _ _ _ _].
  destruct p0 as [a|], p1 as [b|]; (split; [intros Hlt Hall | intros Hall]).
  all: try (vm_compute in Hlt; lia).
  all: try (vm_compute; lia).
  all: try (exfalso; apply Hall; repeat constructor; eauto).
  all: repeat match goal with
              | Hf : Forall _ (_ :: _) |- _ =>
                  apply Forall_cons in Hf as [[? ?] ?]
              end; done.
Qed.

Lemma verdict_in_order ws roomCode index rooms :
  registry_ok rooms →
  verdict_of (move_validate ws roomCode index rooms)
  = checks_in_order number_0_8 lookup_is_empty ws roomCode index rooms.
Proof.
  intros Hok. unfold move_validate, checks_in_order.
  destruct (rooms_get (normalize roomCode) rooms) as [rm|] eqn:Hg; [|done].
  destruct (registry_ok_get _ _ _ Hok Hg) as [_ Hrm].
  pose proof (room_ok_member rm ws Hrm) as Hmem.
  unfold includes.
  destruct (symbols rm !! ws) as [you|] eqn:Hs.
  - destruct (room_ok_symbol rm ws you Hrm Hs) as [_ Ht]. rewrite Ht. simpl.
    rewrite (bool_decide_true (Some ws ∈ players rm))
      by (apply Hmem; eauto).
    simpl. destruct (gameOver rm); [done|].
    destruct index as [| |b|i|s|]; try done.
    unfold number_0_8, lookup_is_empty, in_range.
    destruct (js_lt i (Finite 0)); [done|].
    destruct (js_lt (Finite 8) i); [done|]. simpl.
    pose proof (players_both rm Hrm) as Hboth.
    case_bool_decide as Hcnt.
    + rewrite (bool_decide_false (Forall is_Some (players rm)))
        by by apply Hboth.
      done.
    + rewrite (bool_decide_true (Forall is_Some (players rm)))
        by (by apply dec_stable; rewrite <- Hboth).
      simpl. case_bool_decide as Hturn.
      * rewrite (bool_decide_true (Some you = Some (turn rm)))
          by congruence.
        simpl. by case_bool_decide.
      * rewrite (bool_decide_false (Some you = Some (turn rm)))
          by congruence.
        done.
  - simpl. rewrite (bool_decide_false (Some ws ∈ players rm)); [done|].
    rewrite Hmem. by intros [? ?].
Qed.

Lemma accepted_iff_conditions ws roomCode index rooms :
  registry_ok rooms →
  move_accepted ws roomCode index rooms
  ↔ move_conditions ws roomCode index rooms.
Proof.
  intros Hok. split.
  - intros (code & rm & you & i & Hv).
    apply move_validate_ok in Hv
      as (-> & Hg & Hs & _ & Hgo & -> & Hlo & Hhi & Hcnt & Hturn & Hcell).
    destruct (registry_ok_get _ _ _ Hok Hg) as [_ Hrm].
    apply array_get_Some in Hcell as (k & Hi & Hk).
    exists rm, k. repeat split; try done.
    + apply (room_ok_member rm ws Hrm). eauto.
    + apply cell_index_Some. exists i. repeat split; try done.
      unfold in_range. by rewrite Hlo, Hhi.
    + apply dec_stable. rewrite <- (players_both rm Hrm). lia.
    + congruence.
  - intros (rm & k & Hg & Hin & Hgo & Hix & Hall & Hs & Hk).
    destruct (registry_ok_get _ _ _ Hok Hg) as [_ Hrm].
    apply cell_index_Some in Hix as (i & -> & Hi & Hr).
    exists (normalize roomCode), rm, (turn rm), i.
    apply move_validate_ok. unfold in_range in Hr.
    apply andb_true_iff in Hr as [Hlo Hhi].
    apply negb_true_iff in Hlo, Hhi.
    repeat split; try done.
    + by destruct (room_ok_symbol rm ws _ Hrm Hs).
    + destruct (decide (playersCount (players rm) < 2)) as [Hlt|]; [|lia].
      by apply (players_both rm Hrm) in Hlt.
    + apply array_get_Some. eauto.
Qed.

Lemma rejected_no_change isOpen ws roomCode index rooms :
  ¬ move_accepted ws roomCode index rooms →
  (on_move isOpen ws roomCode index rooms).1 = rooms.
Proof.
  intros Hno. unfold on_move.
  destruct (move_validate ws roomCode index rooms) eqn:Hv; try done.
  exfalso. apply Hno. unfold move_accepted. eauto.
Qed.

(** The room after an accepted move. *)
Lemma move_apply_room isOpen code rm you i rooms :
  ∃ rm', rooms_get code (move_apply isOpen code rm you i rooms).1 = Some rm'
         ∧ players rm' = players rm
         ∧ symbols rm' = symbols rm
         ∧ board rm' = array_set (board rm) i you.
Proof.
  unfold move_apply. destruct (_ || _); simpl;
    eexists; (split; [apply rooms_get_set_eq | done]).
Qed.
End MoveChecks.

(** ** Acceptance of a move *)

Section Acceptance.
Context {js : JSString}.
Implicit Types (rooms : registry) (rm : room) (ws : conn).

Lemma checks_agree (bd : list string) (index : jsval) :
  integer_0_8 index = true →
  lookup_is_empty bd index = cell_is_empty bd index.
Proof.
  unfold integer_0_8, cell_is_empty. intros H.
  apply bool_decide_eq_true in H as [k Hk]. rewrite Hk.
  apply cell_index_Some in Hk as (i & -> & Hi & _). simpl.
  unfold array_get. by rewrite Hi.
Qed.

Lemma orders_agree ws roomCode index rooms :
  number_0_8 index = integer_0_8 index →
  checks_in_order number_0_8 lookup_is_empty ws roomCode index rooms
  = checks_in_order integer_0_8 cell_is_empty ws roomCode index rooms.
Proof.
  intros Heq. unfold checks_in_order. rewrite Heq.
  destruct (rooms_get _ rooms) as [rm|]; [|done].
  destruct (integer_0_8 index) eqn:Hint; [|done].
  by rewrite (checks_agree _ _ Hint).
Qed.

Lemma accepted_write isOpen ws roomCode index rooms :
  move_accepted ws roomCode index rooms →
  ∃ rm k you rm',
    rooms_get (normalize roomCode) rooms = Some rm
    ∧ cell_index index = Some k
    ∧ symbols rm !! ws = Some you
    ∧ rooms_get (normalize roomCode)
        (on_move isOpen ws roomCode index rooms).1 = Some rm'
    ∧ board rm' = <[k:=you]> (board rm).
Proof.
  intros (code & rm & you & i & Hv). unfold on_move. rewrite Hv.
  apply move_validate_ok in Hv
    as (-> & Hg & Hs & _ & _ & -> & Hlo & Hhi & _ & _ & Hcell).
  apply array_get_Some in Hcell as (k & Hi & Hk).
  destruct (move_apply_room isOpen (normalize roomCode) rm you i rooms)
    as (rm' & Hg' & _ & _ & Hbd).
  exists rm, k, you, rm'. repeat split; try done.
  - apply cell_index_Some. exists i. repeat split; try done.
    unfold in_range. by rewrite Hlo, Hhi.
  - rewrite Hbd. unfold array_set. by rewrite Hi.
Qed.
End Acceptance.

(** C1, as amended.  In every reachable registry a move intent is accepted,
    that is, the requester's symbol is written into the cell, exactly when
    the room exists, the requester occupies a slot of it, the game is not
    over, the index is an integer in [[0, 8]], both slots are occupied, the
    requester's symbol is the one to move and the target cell is empty.
    For a [roomCode] that is a string or falsy the checks run in that order
    and stop at the first failure, except that the fourth check only asks
    for a number within [[0, 8]]: an index in that range that is not an
    integer fails at the last check, the read of the cell.  For every other
    index the order is exactly the stated one, and the check that fails
    decides the answer: nothing, or the error of that check, with the
    registry as it was.  A [roomCode] that is truthy and not a string names
    no room and is not accepted: the handler throws on it before any
    check, and that is the only way for the reaction to an intent that is
    not accepted not to leave the registry as it was. *)
Theorem move_acceptance {js : JSString} e ws roomCode index rooms :
  reachable rooms →
  (intent_accepted ws roomCode index rooms
   ↔ intent_conditions ws roomCode index rooms)
  ∧ (intent_accepted ws roomCode index rooms →
     ∃ rc rm k you rooms' out rm',
       code_arg roomCode = Some rc
       ∧ rooms_get (normalize rc) rooms = Some rm
       ∧ cell_index index = Some k
       ∧ symbols rm !! ws = Some you
       ∧ on_message e ws (Move roomCode index) rooms = Some (rooms', out)
       ∧ rooms_get (normalize rc) rooms' = Some rm'
       ∧ board rm' = <[k:=you]> (board rm))
  ∧ (¬ intent_accepted ws roomCode index rooms →
     match on_message e ws (Move roomCode index) rooms with
     | Some (rooms', _) => rooms' = rooms
     | None => throws (Move roomCode index) = true
     end)
  ∧ (∀ rc, code_arg roomCode = Some rc →
       verdict_of (move_validate ws rc index rooms)
       = checks_in_order number_0_8 lookup_is_empty ws rc index rooms
       ∧ (number_0_8 index = integer_0_8 index →
          verdict_of (move_validate ws rc index rooms)
          = checks_in_order integer_0_8 cell_is_empty ws rc index rooms)
       ∧ match verdict_of (move_validate ws rc index rooms) with
         | Accepted => intent_accepted ws roomCode index rooms
         | Ignored =>
             on_message e ws (Move roomCode index) rooms = Some (rooms, [])
         | Refused m =>
             on_message e ws (Move roomCode index) rooms
             = Some (rooms, safeSend (isOpen e) (Some ws) (MError m))
         end).
Proof.
  intros Hreach. apply reachable_ok in Hreach as Hok.
  split; [|split; [|split]].
  - unfold intent_accepted, intent_conditions.
    split; intros (rc & Hrc & Hm); exists rc; (split; [done|]);
      by apply accepted_iff_conditions.
  - intros (rc & Hrc & Hacc).
    destruct (accepted_write (isOpen e) ws rc index rooms Hacc)
      as (rm & k & you & rm' & Hg & Hk & Hs & Hg' & Hbd).
    exists rc, rm, k, you, (on_move (isOpen e) ws rc index rooms).1,
      (on_move (isOpen e) ws rc index rooms).2, rm'.
    cbn [on_message]. rewrite Hrc. cbn [mbind option_bind].
    repeat split; try done. by rewrite <- surjective_pairing.
  - intros Hno. cbn [on_message throws].
    destruct (code_arg roomCode) as [rc|] eqn:Hrc; cbn [mbind option_bind].
    + rewrite (surjective_pairing (on_move _ _ _ _ _)).
      apply rejected_no_change. intros Hacc. apply Hno. by exists rc.
    + by apply bool_decide_eq_true.
  - intros rc Hrc. split; [by apply verdict_in_order|]. split.
    + intros Heq. rewrite <- (orders_agree _ _ _ _ Heq).
      by apply verdict_in_order.
    + cbn [on_message]. rewrite Hrc. cbn [mbind option_bind]. unfold on_move.
      destruct (move_validate ws rc index rooms) as [|m|c rm you i] eqn:Hv;
        cbn [verdict_of]; [done..|].
      exists rc. split; [done|]. unfold move_accepted. rewrite Hv. eauto.
Qed.

Lemma move_acceptance_witness :
  reachable sample_playing
  ∧ intent_accepted 1 (VString "AAAAA") (cell 4) sample_playing
  ∧ ∃ rooms' out rm',
      on_message sample_env 1 (Move (VString "AAAAA") (cell 4)) sample_playing
      = Some (rooms', out)
      ∧ rooms_get "AAAAA" rooms' = Some rm'
      ∧ board rm' = <[4:="X"]> (replicate 9 "").
Proof.
  pose proof (move_acceptance sample_env 1 (VString "AAAAA") (cell 4)
                sample_playing reachable_playing) as (Hiff & Hwrite & _).
  assert (Hacc : intent_accepted 1 (VString "AAAAA") (cell 4) sample_playing).
  { apply Hiff. exists (Some "AAAAA"). split; [reflexivity|].
    exists (Room [Some 1; Some 2] (<[2:="O"]> {[1:="X"]})
                 (replicate 9 "") "X" false), 4.
    repeat split; try reflexivity.
    - left.
    - repeat constructor; eauto. }
  split; [exact reachable_playing|]. split; [exact Hacc|].
  destruct (Hwrite Hacc)
    as (rc & rm & k & you & rooms' & out & rm' & Hrc & Hg & Hk & Hs & Hstep
        & Hg' & Hbd).
  injection Hrc as <-. injection Hg as <-. injection Hk as <-.
  injection Hs as <-.
  exists rooms', out, rm'. split; [exact Hstep|]. split; [exact Hg'|exact Hbd].
Defined.

(** C1 as stated fails on the order of the checks.  With one slot still
    empty and the index 2.5, the stated order stops silently at the index
    check, whereas the server answers with the "waiting for the second
    player" error.  With the [roomCode] 12345, which names no room, the
    stated order stops silently at the first check, whereas the handler
    throws. *)
Lemma move_order_counterexample :
  reachable sample_waiting
  ∧ checks_in_order integer_0_8 cell_is_empty
      1 (Some "AAAAA") (VNumber (Finite (5 # 2))) sample_waiting = Ignored
  ∧ on_message sample_env 1
      (Move (VString "AAAAA") (VNumber (Finite (5 # 2)))) sample_waiting
    = Some (sample_waiting, [(1, MError err_waiting)])
  ∧ (∀ rc, rooms_get (normalize rc) sample_waiting = None →
       checks_in_order integer_0_8 cell_is_empty 1 rc (cell 4) sample_waiting
       = Ignored)
  ∧ on_message sample_env 1 (Move (VNumber (Finite 12345)) (cell 4))
      sample_waiting
    = None.
Proof.
  split; [exact reachable_waiting|]. split; [by vm_compute|].
  split; [by vm_compute|]. split; [|by vm_compute].
  intros rc Hg. unfold checks_in_order. by rewrite Hg.
Qed.

(** C10, as amended.  A move whose index is a number that passes the range
    comparisons without being a non-negative integer (2.5, NaN) is never
    accepted.  When its [roomCode] is a string or falsy it leaves the
    registry, hence every board, turn and gameOver, as it was, and it is
    answered as follows.  No message when the room does not exist.  The
    "not in the room" error when the requester has no symbol in the room,
    which in a reachable registry means that it occupies no slot of it,
    whether or not the game is over.  For a requester in the room: no
    message when the game is over; else the "waiting" error when a slot is
    empty; else the "not your turn" error when it is the other symbol's
    turn; else no message.  When its [roomCode] is truthy and not a string
    the handler throws. *)
Theorem fractional_index_rejected {js : JSString}
    e ws roomCode (i : number) rooms :
  in_range i = true →
  array_index i = None →
  ¬ intent_accepted ws roomCode (VNumber i) rooms
  ∧ match code_arg roomCode with
    | None => on_message e ws (Move roomCode (VNumber i)) rooms = None
    | Some rc =>
        ∃ out,
          on_message e ws (Move roomCode (VNumber i)) rooms
          = Some (rooms, out)
          ∧ match rooms_get (normalize rc) rooms with
            | None => out = []
            | Some rm =>
                (reachable rooms →
                 truthy_opt (symbols rm !! ws) = includes (players rm) ws)
                ∧ if negb (truthy_opt (symbols rm !! ws))
                  then out = safeSend (isOpen e) (Some ws)
                               (MError err_not_member)
                  else if gameOver rm then out = []
                  else if bool_decide (playersCount (players rm) < 2)
                  then out = safeSend (isOpen e) (Some ws)
                               (MError err_waiting)
                  else if negb (bool_decide
                                  (symbols rm !! ws = Some (turn rm)))
                  then out = safeSend (isOpen e) (Some ws)
                               (MError err_not_your_turn)
                  else out = []
            end
    end.
Proof.
  intros Hr Hi.
  assert (Hno : ∀ rc, ¬ move_accepted ws rc (VNumber i) rooms).
  { intros rc (code & rm & you & i' & Hv).
    apply move_validate_ok in Hv
      as (_ & _ & _ & _ & _ & [= <-] & _ & _ & _ & _ & Hcell).
    apply array_get_Some in Hcell as (k & Hk & _). congruence. }
  split; [intros (rc & _ & Hacc); by apply (Hno rc)|].
  cbn [on_message].
  destruct (code_arg roomCode) as [rc|]; cbn [mbind option_bind]; [|done].
  exists (on_move (isOpen e) ws rc (VNumber i) rooms).2.
  split.
  { f_equal. apply injective_projections; [|done].
    by apply rejected_no_change. }
  unfold on_move, move_validate.
  destruct (rooms_get _ rooms) as [rm|] eqn:Hg; [|done].
  split.
  { intros Hreach. apply reachable_ok in Hreach as Hok.
    destruct (registry_ok_get _ _ _ Hok Hg) as [_ Hrm].
    unfold includes. pose proof (room_ok_truthy rm ws Hrm) as Ht.
    destruct (truthy_opt (symbols rm !! ws)); symmetry.
    - apply bool_decide_eq_true. by apply Ht.
    - apply bool_decide_eq_false. intros Hin. by apply Ht in Hin. }
  unfold in_range in Hr. apply andb_true_iff in Hr as [Hlo Hhi].
  apply negb_true_iff in Hlo, Hhi.
  destruct (symbols rm !! ws) as [you|]; simpl; [|done].
  destruct (truthy you); simpl; [|done].
  destruct (gameOver rm); [done|]. rewrite Hlo, Hhi. simpl.
  case_bool_decide; [done|].
  case_bool_decide as Ht; simpl.
  - rewrite (bool_decide_true (turn rm = you)) by congruence.
    simpl. unfold array_get. by rewrite Hi.
  - by rewrite (bool_decide_false (turn rm = you)) by congruence.
Qed.

Lemma fractional_index_rejected_witness :
  in_range (Finite (5 # 2)) = true
  ∧ array_index (Finite (5 # 2)) = None
  ∧ on_message sample_env 1
      (Move (VString "AAAAA") (VNumber (Finite (5 # 2)))) sample_playing
    = Some (sample_playing, [])
  ∧ on_message sample_env 3
      (Move (VString "AAAAA") (VNumber (Finite (5 # 2)))) sample_won
    = Some (sample_won, [(3, MError err_not_member)]).
Proof.
  split; [reflexivity|]. split; [reflexivity|].
  pose proof (fractional_index_rejected sample_env 1 (VString "AAAAA")
                (Finite (5 # 2)) sample_playing eq_refl eq_refl)
    as (_ & out & Hstep & _ & Hout).
  pose proof (fractional_index_rejected sample_env 3 (VString "AAAAA")
                (Finite (5 # 2)) sample_won eq_refl eq_refl)
    as (_ & out' & Hstep' & _ & Hout').
  split.
  - rewrite Hstep. f_equal. f_equal. exact Hout.
  - rewrite Hstep'. f_equal. f_equal. exact Hout'.
Defined.

(** C10 as stated fails on "sends no error message": connection 2 sends the
    index 2.5 while it is X's turn and is answered "not your turn".  It
    also fails on "leaves unchanged" when the same index comes with the
    [roomCode] 12345: the handler throws. *)
Lemma fractional_index_counterexample :
  reachable sample_playing
  ∧ in_range (Finite (5 # 2)) = true
  ∧ array_index (Finite (5 # 2)) = None
  ∧ on_message sample_env 2
      (Move (VString "AAAAA") (VNumber (Finite (5 # 2)))) sample_playing
    = Some (sample_playing, [(2, MError err_not_your_turn)])
  ∧ on_message sample_env 2
      (Move (VNumber (Finite 12345)) (VNumber (Finite (5 # 2))))
      sample_playing
    = None.
Proof.
  split; [exact reachable_playing|]. by vm_compute.
Qed.

(** ** Win detection *)

Section Wins.
Implicit Types (bd : list string) (rooms : registry) (rm : room).

Lemma line_wins_true bd line :
  line_wins bd line = true ↔ ∃ v, line_of bd line v.
Proof.
  destruct line as [[a b] c]. unfold line_wins, line_of. simpl.
  destruct (bd !! a) as [va|]; [|split; [done | by intros (? & ? & ? & _)]].
  rewrite !andb_true_iff, !bool_decide_eq_true, truthy_true.
  split; [intros [[? ?] ?]; eauto|].
  intros (v & ? & [= ->] & ? & ?). done.
Qed.

Lemma line_wins_false bd line :
  line_wins bd line = false ↔ ∀ v, ¬ line_of bd line v.
Proof.
  rewrite <- not_true_iff_false, line_wins_true. split.
  - intros Hno v Hv. apply Hno. eauto.
  - intros Hno [v Hv]. by apply (Hno v).
Qed.

Lemma scan_wins_Some bd lines v :
  scan_wins bd lines = Some v ↔ ∃ line, first_line bd lines line v.
Proof.
  induction lines as [|[[a b] c] rest IH]; cbn [scan_wins].
  - split; [done|]. intros (l & pre & post & Heq & _).
    by destruct pre.
  - destruct (line_wins bd (a, b, c)) eqn:Hw.
    + apply line_wins_true in Hw as (u & Hu).
      destruct Hu as (Hne & Ha & Hb & Hc). simpl in *. rewrite Ha. split.
      * intros [= ->]. exists (a, b, c), [], rest.
        repeat split; try done; constructor.
      * intros (l & pre & post & Heq & Hpre & Hl).
        destruct pre as [|l0 pre]; simplify_eq/=.
        -- destruct Hl as (_ & Hl & _). simpl in Hl. congruence.
        -- apply Forall_cons in Hpre as [Hno _]. exfalso.
           apply (Hno u). by repeat split.
    + rewrite IH. rewrite line_wins_false in Hw. split.
      * intros (l & pre & post & -> & Hpre & Hl).
        exists l, ((a, b, c) :: pre), post.
        split; [done|]. split; [by constructor | done].
      * intros (l & pre & post & Heq & Hpre & Hl).
        destruct pre as [|l0 pre]; simplify_eq/=.
        -- exfalso. by apply (Hw v).
        -- apply Forall_cons in Hpre as [_ Hpre]. by exists l, pre, post.
Qed.

Lemma scan_wins_None bd lines :
  scan_wins bd lines = None ↔ Forall (λ l, ∀ v, ¬ line_of bd l v) lines.
Proof.
  induction lines as [|[[a b] c] rest IH]; cbn [scan_wins].
  - split; [constructor | done].
  - destruct (line_wins bd (a, b, c)) eqn:Hw.
    + apply line_wins_true in Hw as (u & Hu). split.
      * destruct Hu as (_ & Ha & _). simpl in Ha. congruence.
      * intros Hall. apply Forall_cons in Hall as [Hno _].
        by destruct (Hno u).
    + rewrite line_wins_false in Hw. rewrite IH, Forall_cons. tauto.
Qed.

Lemma board_full_true bd :
  board_full bd = true ↔ Forall (λ v, v ≠ "") bd.
Proof.
  unfold board_full. rewrite forallb_forall, Forall_forall.
  split; intros H v Hv.
  - apply list_elem_of_In, H in Hv.
    by apply negb_true_iff, bool_decide_eq_false in Hv.
  - apply negb_true_iff, bool_decide_eq_false, H. by apply list_elem_of_In.
Qed.

Lemma scan_wins_symbol bd lines v :
  Forall is_cell bd → scan_wins bd lines = Some v →
  (v = "X" ∨ v = "O") ∧ truthy v = true.
Proof.
  intros Hcells Hv. apply scan_wins_Some in Hv as (l & _ & _ & _ & _ & Hl).
  destruct Hl as (Hne & Ha & _).
  apply list_elem_of_lookup_2 in Ha.
  rewrite Forall_forall in Hcells. apply Hcells in Ha.
  split; [unfold is_cell in Ha; tauto | by apply truthy_true].
Qed.
End Wins.

Arguments scan_wins : simpl never.
Arguments board_full : simpl never.

(** C2.  The scan goes over the three rows, the three columns and the two
    diagonals, eight lines in that fixed order.  A line is won exactly when
    its three cells hold the same non-empty value, and the winner is the
    value of the first won line.  An accepted move in a reachable registry
    writes the requester's symbol into the cell and the scan reads the board
    so written: when a line of it is won, gameOver becomes true and every
    occupant is sent a gameover message carrying that symbol, which is "X"
    or "O"; when no line is won and no cell is empty, gameOver becomes true
    and the gameover message carries "D", which is neither symbol;
    otherwise gameOver stays false and no gameover message is sent. *)
Theorem win_detection {js : JSString} :
  (WINS = (row <$> [0; 1; 2]) ++ (column <$> [0; 1; 2]) ++ diagonals
   ∧ length WINS = 8 ∧ NoDup WINS)
  ∧ (∀ bd line, line_wins bd line = true ↔ ∃ v, line_of bd line v)
  ∧ (∀ bd v, scan_wins bd WINS = Some v ↔ ∃ line, first_line bd WINS line v)
  ∧ (∀ bd, scan_wins bd WINS = None
           ↔ Forall (λ l, ∀ v, ¬ line_of bd l v) WINS)
  ∧ (∀ bd, board_full bd = true ↔ Forall (λ v, v ≠ "") bd)
  ∧ ("D" ≠ "X" ∧ "D" ≠ "O")
  ∧ ∀ isOpen ws roomCode index rooms,
      reachable rooms →
      move_accepted ws roomCode index rooms →
      let result := on_move isOpen ws roomCode index rooms in
      ∃ rm k you rm',
        rooms_get (normalize roomCode) rooms = Some rm
        ∧ cell_index index = Some k
        ∧ symbols rm !! ws = Some you
        ∧ rooms_get (normalize roomCode) result.1 = Some rm'
        ∧ board rm' = <[k:=you]> (board rm)
        ∧ players rm' = players rm
        ∧ length (board rm') = 9
        ∧ match scan_wins (board rm') WINS with
          | Some v =>
              (v = "X" ∨ v = "O")
              ∧ gameOver rm' = true
              ∧ result.2 = to_occupants isOpen rm' (MGameOver v)
                           ++ to_occupants isOpen rm' (MState (Some (view rm')))
          | None =>
              if board_full (board rm')
              then gameOver rm' = true
                   ∧ result.2
                     = to_occupants isOpen rm' (MGameOver "D")
                       ++ to_occupants isOpen rm' (MState (Some (view rm')))
              else gameOver rm' = false
                   ∧ result.2
                     = to_occupants isOpen rm' (MState (Some (view rm')))
          end.
Proof.
  split; [split; [reflexivity|]; split; [reflexivity|]|].
  { apply (bool_decide_unpack _). by vm_compute. }
  split; [apply line_wins_true|].
  split; [intros; apply scan_wins_Some|].
  split; [intros; apply scan_wins_None|].
  split; [apply board_full_true|].
  split; [done|].
  intros isOpen ws roomCode index rooms Hreach (code & rm & you & i & Hv) result.
  apply reachable_ok in Hreach as Hok.
  unfold result, on_move. rewrite Hv.
  apply move_validate_ok in Hv
    as (-> & Hg & Hs & _ & Hgo & -> & Hlo & Hhi & _ & Hturn & Hcell).
  apply array_get_Some in Hcell as (k & Hi & Hk).
  destruct (registry_ok_get _ _ _ Hok Hg) as [_ Hrm].
  destruct (room_ok_move rm ws you i k Hrm Hs Hturn Hgo Hi Hk) as [Hover _].
  destruct Hover as [_ _ [Hlen Hcells] _ _]. simpl in Hlen, Hcells.
  assert (Hix : cell_index (VNumber i) = Some k).
  { apply cell_index_Some. exists i. repeat split; try done.
    unfold in_range. by rewrite Hlo, Hhi. }
  assert (Hbd : array_set (board rm) i you = <[k:=you]> (board rm))
    by (unfold array_set; by rewrite Hi).
  exists rm, k, you. unfold move_apply.
  destruct (scan_wins (array_set (board rm) i you) WINS) as [v|] eqn:Hscan.
  - destruct (scan_wins_symbol _ _ _ Hcells Hscan) as [Hv Ht].
    simpl. rewrite Ht. simpl. eexists.
    do 3 (split; [done|]). split; [apply rooms_get_set_eq|].
    simpl. rewrite Hscan. rewrite !broadcastRoom_set, state_msg_set. done.
  - simpl. destruct (board_full (array_set (board rm) i you)) eqn:Hfull; simpl.
    + eexists. do 3 (split; [done|]). split; [apply rooms_get_set_eq|].
      simpl. rewrite Hscan, Hfull.
      rewrite !broadcastRoom_set, state_msg_set. done.
    + eexists. do 3 (split; [done|]). split; [apply rooms_get_set_eq|].
      simpl. rewrite Hscan, Hfull.
      rewrite !broadcastRoom_set, state_msg_set. done.
Qed.

Lemma win_detection_witness :
  (reachable sample_before_win
   ∧ move_accepted 1 (Some "AAAAA") (cell 2) sample_before_win
   ∧ on_move (λ _, true) 1 (Some "AAAAA") (cell 2) sample_before_win
     = (sample_won,
        [(1, MGameOver "X"); (2, MGameOver "X");
         (1, MState (Some (RoomView ["X"; "X"; "X"; ""; "O"; "O"; ""; ""; ""]
                             "X" true 2)));
         (2, MState (Some (RoomView ["X"; "X"; "X"; ""; "O"; "O"; ""; ""; ""]
                             "X" true 2)))]))
  ∧ (reachable sample_before_draw
     ∧ move_accepted 1 (Some "AAAAA") (cell 7) sample_before_draw
     ∧ ∃ rm',
         rooms_get "AAAAA"
           (on_move (λ _, true) 1 (Some "AAAAA") (cell 7) sample_before_draw).1
         = Some rm'
         ∧ board rm' = ["X"; "O"; "O"; "O"; "X"; "X"; "X"; "X"; "O"]
         ∧ gameOver rm' = true
         ∧ (on_move (λ _, true) 1 (Some "AAAAA") (cell 7)
              sample_before_draw).2
           = to_occupants (λ _, true) rm' (MGameOver "D")
             ++ to_occupants (λ _, true) rm' (MState (Some (view rm')))).
Proof.
  assert (Hwin : move_accepted 1 (Some "AAAAA") (cell 2) sample_before_win).
  { eexists _, _, _, _. reflexivity. }
  assert (Hdraw : move_accepted 1 (Some "AAAAA") (cell 7) sample_before_draw).
  { eexists _, _, _, _. reflexivity. }
  pose proof (proj2 (proj2 (proj2 (proj2 (proj2 (proj2 win_detection))))))
    as Hmove.
  split.
  - split; [exact reachable_before_win|]. split; [exact Hwin|].
    destruct (Hmove (λ _, true) 1 (Some "AAAAA") (cell 2) sample_before_win
                reachable_before_win Hwin)
      as (rm & k & you & rm' & Hg & Hk & Hs & Hg' & Hbd & _ & _ & Hout).
    injection Hg as <-. injection Hk as <-. injection Hs as <-.
    rewrite Hbd in Hout. destruct Hout as (_ & _ & Hout).
    apply injective_projections; [reflexivity|].
    rewrite Hout. vm_compute in Hg'. injection Hg' as <-. reflexivity.
  - split; [exact reachable_before_draw|]. split; [exact Hdraw|].
    destruct (Hmove (λ _, true) 1 (Some "AAAAA") (cell 7) sample_before_draw
                reachable_before_draw Hdraw)
      as (rm & k & you & rm' & Hg & Hk & Hs & Hg' & Hbd & _ & _ & Hout).
    injection Hg as <-. injection Hk as <-. injection Hs as <-.
    exists rm'. split; [exact Hg'|]. split; [exact Hbd|].
    rewrite Hbd in Hout. exact Hout.
Defined.

(** C3.  An accepted move in a reachable registry has exactly one of two
    effects on its room: either the turn passes to the other symbol and
    gameOver stays false, or gameOver becomes true and the turn stays. *)
Theorem turn_flips_or_game_over {js : JSString} isOpen ws roomCode index rooms :
  reachable rooms →
  move_accepted ws roomCode index rooms →
  ∃ rm rm',
    rooms_get (normalize roomCode) rooms = Some rm
    ∧ rooms_get (normalize roomCode)
        (on_move isOpen ws roomCode index rooms).1 = Some rm'
    ∧ gameOver rm = false
    ∧ ((turn rm' ≠ turn rm
        ∧ (turn rm = "X" ∧ turn rm' = "O" ∨ turn rm = "O" ∧ turn rm' = "X")
        ∧ gameOver rm' = false)
       ∨ (turn rm' = turn rm ∧ gameOver rm' = true)).
Proof.
  intros Hreach (code & rm & you & i & Hv).
  apply reachable_ok in Hreach as Hok.
  unfold on_move. rewrite Hv.
  apply move_validate_ok in Hv
    as (-> & Hg & _ & _ & Hgo & _ & _ & _ & _ & _ & _).
  destruct (registry_ok_get _ _ _ Hok Hg) as [_ [_ _ _ Hturn _]].
  exists rm. unfold move_apply.
  destruct (_ || _); simpl;
    (eexists; split; [done|]; split; [apply rooms_get_set_eq|];
     split; [done|]); simpl.
  - by right.
  - left. destruct Hturn as [-> | ->]; simpl; split; try done; auto.
Qed.

Lemma turn_flips_or_game_over_witness :
  reachable sample_playing
  ∧ move_accepted 1 (Some "AAAAA") (cell 4) sample_playing
  ∧ ∃ rm rm',
      rooms_get "AAAAA" sample_playing = Some rm
      ∧ rooms_get "AAAAA"
          (on_move (λ _, true) 1 (Some "AAAAA") (cell 4) sample_playing).1
        = Some rm'
      ∧ turn rm = "X" ∧ turn rm' = "O" ∧ gameOver rm' = false.
Proof.
  assert (Hacc : move_accepted 1 (Some "AAAAA") (cell 4) sample_playing).
  { eexists _, _, _, _. reflexivity. }
  split; [exact reachable_playing|]. split; [exact Hacc|].
  destruct (turn_flips_or_game_over (λ _, true) 1 (Some "AAAAA") (cell 4)
              sample_playing reachable_playing Hacc)
    as (rm & rm' & Hg & Hg' & _ & _).
  exists rm, rm'. split; [exact Hg|]. split; [exact Hg'|].
  vm_compute in Hg, Hg'. injection Hg as <-. injection Hg' as <-.
  repeat split; reflexivity.
Defined.

(** ** Room creation *)

Section Create.
Implicit Types (rooms : registry) (rm : room) (ws : conn).

Lemma fresh_code_Some fuel rnd k rooms code :
  fresh_code fuel rnd (5 * k) rooms = Some code ↔
  ∃ t, t < fuel
       ∧ code = attempt rnd (k + t)
       ∧ rooms_get code rooms = None
       ∧ ∀ t', t' < t → is_Some (rooms_get (attempt rnd (k + t')) rooms).
Proof.
  revert k. induction fuel as [|fuel IH]; intros k; cbn [fresh_code].
  - split; [done|]. intros (t & ? & _). lia.
  - fold (attempt rnd k).
    destruct (rooms_has (attempt rnd k) rooms) eqn:Hhas.
    + replace (5 * k + 5) with (5 * S k) by lia. rewrite IH.
      apply bool_decide_eq_true in Hhas. split.
      * intros (t & Ht & -> & Hfree & Hbusy). exists (S t).
        split; [lia|]. replace (k + S t) with (S k + t) by lia.
        split; [done|]. split; [done|].
        intros [|t'] Hlt; [by rewrite Nat.add_0_r|].
        replace (k + S t') with (S k + t') by lia. apply Hbusy. lia.
      * intros ([|t] & Ht & -> & Hfree & Hbusy).
        { rewrite Nat.add_0_r in Hfree. rewrite Hfree in Hhas.
          by destruct Hhas. }
        exists t. split; [lia|]. replace (S k + t) with (k + S t) by lia.
        split; [done|]. split; [done|].
        intros t' Hlt. replace (S k + t') with (k + S t') by lia.
        apply Hbusy. lia.
    + apply rooms_has_false in Hhas. split.
      * intros [= <-]. exists 0. rewrite Nat.add_0_r.
        split; [lia|]. split; [done|]. split; [done|]. intros t' Hlt. lia.
      * intros ([|t] & Ht & -> & Hfree & Hbusy).
        { by rewrite Nat.add_0_r. }
        specialize (Hbusy 0). rewrite Nat.add_0_r, Hhas in Hbusy.
        destruct Hbusy as [? ?]; [lia | done].
Qed.

Lemma fresh_code_total fuel rnd k rooms t :
  t < fuel →
  rooms_get (attempt rnd (k + t)) rooms = None →
  is_Some (fresh_code fuel rnd (5 * k) rooms).
Proof.
  revert k t. induction fuel as [|fuel IH]; intros k t Ht Hfree; [lia|].
  cbn [fresh_code]. fold (attempt rnd k).
  destruct (rooms_has (attempt rnd k) rooms) eqn:Hhas; [|by eexists].
  destruct t as [|t].
  - rewrite Nat.add_0_r in Hfree. apply rooms_has_false in Hfree. congruence.
  - replace (5 * k + 5) with (5 * S k) by lia. apply (IH (S k) t); [lia|].
    by replace (S k + t) with (k + S t) by lia.
Qed.

Lemma ambiguous_excluded : Forall (λ c, c ∉ list_ascii_of_string chars) ambiguous.
Proof. apply (bool_decide_unpack _). by vm_compute. Qed.
End Create.

(** C4, as amended.  The alphabet has 32 characters, none of them 0, O, 1
    or I.  With [Math.random] within its contract, every code that [create]
    registers has exactly 5 characters of that alphabet, is unchanged by
    [toUpperCase] and by the normalisation applied to incoming codes, and
    is not the code of any live room: it is the first generated code that
    collides with none, all earlier ones having collided.  [create]
    finishes as soon as one generated code is free, and then the codes of
    the registry are still pairwise distinct. *)
Theorem room_code_fresh {js : JSString} isOpen rnd fuel ws rooms :
  random_ok rnd →
  reachable rooms →
  (String.length chars = 32 ∧ Forall (λ c, c ∉ list_ascii_of_string chars) ambiguous)
  ∧ (∀ rooms' out,
       on_create isOpen rnd fuel ws rooms = Some (rooms', out) →
       ∃ code t,
         rooms' = rooms_set code (new_room ws) rooms
         ∧ String.length code = 5
         ∧ Forall in_alphabet (list_ascii_of_string code)
         ∧ toUpperCase code = code
         ∧ normalize (Some code) = code
         ∧ (code ∉ rooms.*1)
         ∧ NoDup rooms'.*1
         ∧ t < fuel
         ∧ code = attempt rnd t
         ∧ ∀ t', t' < t → attempt rnd t' ∈ rooms.*1)
  ∧ (∀ t, t < fuel → attempt rnd t ∉ rooms.*1 →
       is_Some (on_create isOpen rnd fuel ws rooms)).
Proof.
  intros Hrnd Hreach. apply reachable_ok in Hreach as Hok.
  split; [split; [reflexivity | apply ambiguous_excluded]|].
  pose proof (fresh_code_Some fuel rnd 0 rooms) as Hspec. simpl in Hspec.
  split.
  - intros rooms' out Hc. unfold on_create in Hc.
    destruct (fresh_code fuel rnd 0 rooms) as [code|] eqn:Hf; [|done].
    simpl in Hc. injection Hc as <- _.
    destruct (proj1 (Hspec code) eq_refl) as (t & Ht & -> & Hfree & Hbusy).
    pose proof (makeRoomCode_valid rnd (5 * t) Hrnd) as Hvalid.
    fold (attempt rnd t) in Hvalid.
    assert (Hok' : registry_ok (rooms_set (attempt rnd t) (new_room ws) rooms))
      by (apply registry_ok_set; [done..|apply room_ok_new]).
    exists (attempt rnd t), t. destruct Hvalid as [Hlen Hall].
    repeat split; try done.
    + by apply toUpperCase_code.
    + by apply normalize_valid.
    + by apply rooms_get_None.
    + by destruct Hok'.
    + intros t' Hlt. apply rooms_has_true, bool_decide_eq_true.
      by apply Hbusy.
  - intros t Ht Hfree. apply rooms_get_None in Hfree.
    destruct (fresh_code_total fuel rnd 0 rooms t Ht Hfree) as [code Hf].
    simpl in Hf. unfold on_create. rewrite Hf. by eexists.
Qed.

Lemma room_code_fresh_witness :
  random_ok (random sample_env)
  ∧ reachable []
  ∧ ∃ code,
      fst <$> on_create (λ _, true) (random sample_env) 1 7 []
      = Some [(code, new_room 7)]
      ∧ String.length code = 5.
Proof.
  split; [exact sample_random_ok|]. split; [exact reachable_init|].
  destruct (proj1 (proj2 (room_code_fresh (λ _, true) (random sample_env) 1 7 []
                            sample_random_ok reachable_init))
              [("AAAAA", new_room 7)]
              (default ([], []) (on_create (λ _, true) (random sample_env)
                                   1 7 [])).2 eq_refl)
    as (code & t & Heq & Hlen & _).
  exists code. split; [|exact Hlen].
  change (Some [("AAAAA", new_room 7)] = Some [(code, new_room 7)]).
  simpl in Heq. injection Heq as <-. reflexivity.
Defined.

(** C4 as stated fails on the size of the alphabet: it has 32 characters,
    not 33. *)
Lemma alphabet_size_counterexample :
  String.length chars = 32 ∧ String.length chars ≠ 33.
Proof. split; [reflexivity | discriminate]. Qed.

(** C5.  What [restart] does in a reachable registry.  With a [roomCode]
    that is a string or falsy: from an occupant of an existing room it gives
    the room a board of 9 empty cells, the turn "X" and gameOver false,
    keeps its slots and its symbol table, leaves every other room and the
    order of the registry alone, and tells every occupant; when the room
    does not exist or the requester occupies no slot of it, the registry is
    unchanged and nothing is sent.  With a [roomCode] that is truthy and not
    a string, which is the code of no room, the message is not ignored: the
    handler throws on it and the reaction does not complete. *)
Theorem restart_resets {js : JSString} e ws roomCode rooms :
  reachable rooms →
  (∀ rc, code_arg roomCode = Some rc →
     let code := normalize rc in
     ∃ rooms' out,
       on_message e ws (Restart roomCode) rooms = Some (rooms', out)
       ∧ (∀ rm, rooms_get code rooms = Some rm → Some ws ∈ players rm →
            ∃ rm',
              rooms_get code rooms' = Some rm'
              ∧ board rm' = [""; ""; ""; ""; ""; ""; ""; ""; ""]
              ∧ turn rm' = "X"
              ∧ gameOver rm' = false
              ∧ players rm' = players rm
              ∧ symbols rm' = symbols rm
              ∧ (∀ c, c ≠ code → rooms_get c rooms' = rooms_get c rooms)
              ∧ rooms'.*1 = rooms.*1
              ∧ out = to_occupants (isOpen e) rm' (MInfo msg_restarted)
                      ++ to_occupants (isOpen e) rm'
                           (MState (Some (view rm'))))
       ∧ (rooms_get code rooms = None
          ∨ (∃ rm, rooms_get code rooms = Some rm ∧ Some ws ∉ players rm) →
          rooms' = rooms ∧ out = []))
  ∧ (js_truthy roomCode = true → (∀ s, roomCode ≠ VString s) →
     throws (Restart roomCode) = true
     ∧ on_message e ws (Restart roomCode) rooms = None).
Proof.
  intros Hreach. apply reachable_ok in Hreach as Hok. split.
  - intros rc Hrc code. cbn [on_message]. rewrite Hrc.
    cbn [mbind option_bind].
    exists (on_restart (isOpen e) ws rc rooms).1,
      (on_restart (isOpen e) ws rc rooms).2.
    split; [by rewrite <- surjective_pairing|].
    unfold on_restart. fold code. split.
    + intros rm Hg Hin. rewrite Hg.
      destruct (registry_ok_get _ _ _ Hok Hg) as [_ Hrm].
      apply (room_ok_truthy rm ws Hrm) in Hin. rewrite Hin. simpl.
      exists (restarted rm). rewrite rooms_get_set_eq.
      repeat split; try done.
      * intros c Hc. by apply rooms_get_set_ne.
      * apply rooms_set_keys_present, rooms_has_true, bool_decide_eq_true.
        eauto.
      * by rewrite !broadcastRoom_set, state_msg_set.
    + intros [Hg|(rm & Hg & Hin)]; rewrite Hg; [done|].
      destruct (registry_ok_get _ _ _ Hok Hg) as [_ Hrm].
      destruct (truthy_opt (symbols rm !! ws)) eqn:Ht; [|done].
      by apply (room_ok_truthy rm ws Hrm) in Ht.
  - intros Htruthy Hstr.
    assert (Hrc : code_arg roomCode = None).
    { destruct roomCode as [| |b|n|s|]; cbn [code_arg] in *;
        rewrite ?Htruthy; try done. by destruct (Hstr s). }
    cbn [on_message throws]. rewrite Hrc. split; [|done].
    by apply bool_decide_eq_true.
Qed.

Lemma restart_resets_witness :
  reachable sample_won
  ∧ on_message sample_env 2 (Restart (VNumber (Finite 12345))) sample_won
    = None
  ∧ on_message sample_env 3 (Restart (VString "AAAAA")) sample_won
    = Some (sample_won, [])
  ∧ ∃ rooms' out rm',
      on_message sample_env 2 (Restart (VString "aaaaa")) sample_won
      = Some (rooms', out)
      ∧ rooms_get "AAAAA" rooms' = Some rm'
      ∧ board rm' = [""; ""; ""; ""; ""; ""; ""; ""; ""]
      ∧ turn rm' = "X"
      ∧ gameOver rm' = false.
Proof.
  split; [exact reachable_won|]. split; [|split].
  - refine (proj2 (proj2 (restart_resets sample_env 2 (VNumber (Finite 12345))
                            sample_won reachable_won) eq_refl _)).
    discriminate.
  - destruct (proj1 (restart_resets sample_env 3 (VString "AAAAA") sample_won
                       reachable_won) (Some "AAAAA") eq_refl)
      as (rooms' & out & Hstep & _ & Hnone).
    rewrite Hstep. f_equal. apply pair_equal_spec, Hnone.
    right. eexists. split; [reflexivity|].
    intros Hin. apply elem_of_cons in Hin as [Hin|Hin]; [discriminate Hin|].
    apply elem_of_cons in Hin as [Hin|Hin]; [discriminate Hin|].
    by apply elem_of_nil in Hin.
  - destruct (proj1 (restart_resets sample_env 2 (VString "aaaaa") sample_won
                       reachable_won) (Some "aaaaa") eq_refl)
      as (rooms' & out & Hstep & Hreset & _).
    destruct (Hreset
                (Room [Some 1; Some 2] (<[2:="O"]> {[1:="X"]})
                      ["X"; "X"; "X"; ""; "O"; "O"; ""; ""; ""] "X" true)
                eq_refl)
      as (rm' & Hg & Hb & Ht & Hgo & _).
    { right. left. }
    exists rooms', out, rm'. split; [exact Hstep|]. split; [exact Hg|].
    split; [exact Hb|]. split; [exact Ht | exact Hgo].
Defined.

(** C7.  In a reachable registry, [join] from a connection that already
    occupies a slot of the room it names changes nothing: the registry is
    the same, the requester is sent its join confirmation with the symbol
    of the slot it holds, which is the one its symbol table entry records,
    followed by the current state, and joining once more gives the same
    again. *)
Theorem join_again_is_noop {js : JSString} isOpen ws roomCode rooms rm :
  reachable rooms →
  rooms_get (normalize roomCode) rooms = Some rm →
  Some ws ∈ players rm →
  ∃ idx,
    players rm !! idx = Some (Some ws)
    ∧ symbols rm !! ws = Some (symbol_of_slot idx)
    ∧ on_join isOpen ws roomCode rooms
      = (rooms,
         safeSend isOpen (Some ws)
           (MJoined (normalize roomCode) (Some (symbol_of_slot idx)))
         ++ safeSend isOpen (Some ws) (MState (Some (view rm))))
    ∧ on_join isOpen ws roomCode (on_join isOpen ws roomCode rooms).1
      = on_join isOpen ws roomCode rooms.
Proof.
  intros Hreach Hg Hin. apply reachable_ok in Hreach as Hok.
  destruct (registry_ok_get _ _ _ Hok Hg) as [_ Hrm].
  assert (Hjoin : ∀ s, symbols rm !! ws = Some s →
            on_join isOpen ws roomCode rooms
            = (rooms,
               safeSend isOpen (Some ws) (MJoined (normalize roomCode) (Some s))
               ++ safeSend isOpen (Some ws) (MState (Some (view rm))))).
  { intros s Hs. unfold on_join. rewrite Hg.
    rewrite (proj2 (includes_true rm ws) Hin), Hs.
    by rewrite (state_msg_get _ _ _ Hg). }
  apply (room_ok_member rm ws Hrm) in Hin as [s Hs].
  destruct Hrm as [_ Hsym _ _ _]. apply Hsym in Hs as Hslot.
  destruct Hslot as [[Hp ->]|[Hp ->]]; [exists 0 | exists 1];
    (split; [done|]; split; [done|]);
    rewrite (Hjoin _ Hs); simpl; by rewrite (Hjoin _ Hs).
Qed.

Lemma join_again_is_noop_witness :
  reachable sample_playing
  ∧ rooms_get (normalize (Some " aaaaa")) sample_playing
    = Some (Room [Some 1; Some 2] (<[2:="O"]> {[1:="X"]})
                 (replicate 9 "") "X" false)
  ∧ Some 2 ∈ [Some 1; Some 2]
  ∧ (on_join (λ _, true) 2 (Some " aaaaa") sample_playing).1 = sample_playing.
Proof.
  assert (Hin : Some 2 ∈ [Some 1; Some 2]) by (right; left).
  split; [exact reachable_playing|]. split; [reflexivity|].
  split; [exact Hin|].
  destruct (join_again_is_noop (λ _, true) 2 (Some " aaaaa") sample_playing _
              reachable_playing eq_refl Hin) as (idx & _ & _ & Hjoin & _).
  rewrite Hjoin. reflexivity.
Defined.

(** C9.  In every room of a reachable registry the number of cells holding
    "X" minus the number of cells holding "O" is 0 or 1, and while
    gameOver is false it is 0 exactly when the turn is "X" and 1 exactly
    when the turn is "O". *)
Theorem lead_invariant {js : JSString} rooms code rm :
  reachable rooms →
  rooms_get code rooms = Some rm →
  (lead (board rm) = 0%Z ∨ lead (board rm) = 1%Z)
  ∧ (gameOver rm = false →
     (lead (board rm) = 0%Z ↔ turn rm = "X")
     ∧ (lead (board rm) = 1%Z ↔ turn rm = "O")).
Proof.
  intros Hreach Hg. apply reachable_ok in Hreach as Hok.
  destruct (registry_ok_get _ _ _ Hok Hg) as [_ [_ _ _ _ Hlead]].
  destruct (gameOver rm).
  - split; [done|]. discriminate.
  - split; [tauto|]. intros _.
    destruct Hlead as [[HX H0]|[HO H1]].
    + rewrite HX, H0. split; split; try done; discriminate.
    + rewrite HO, H1. split; split; try done; discriminate.
Qed.

Lemma lead_invariant_witness :
  reachable sample_won
  ∧ rooms_get "AAAAA" sample_won
    = Some (Room [Some 1; Some 2] (<[2:="O"]> {[1:="X"]})
                 ["X"; "X"; "X"; ""; "O"; "O"; ""; ""; ""] "X" true)
  ∧ (lead ["X"; "X"; "X"; ""; "O"; "O"; ""; ""; ""] = 0%Z
     ∨ lead ["X"; "X"; "X"; ""; "O"; "O"; ""; ""; ""] = 1%Z).
Proof.
  split; [exact reachable_won|]. split; [reflexivity|].
  exact (proj1 (lead_invariant sample_won "AAAAA" _ reachable_won eq_refl)).
Defined.

(** ** Reported errors *)

Section Errors.
Context {js : JSString}.
Implicit Types (rooms : registry) (rm : room) (ws : conn).

Lemma safeSend_elem isOpen p obj w m :
  (w, m) ∈ safeSend isOpen p obj → p = Some w ∧ m = obj ∧ isOpen w = true.
Proof.
  destruct p as [v|]; simpl; [|by intros ?%elem_of_nil].
  destruct (isOpen v) eqn:Hv; [|by intros ?%elem_of_nil].
  intros H%list_elem_of_singleton. by simplify_eq.
Qed.

Lemma broadcastRoom_elem isOpen rooms code obj w m :
  (w, m) ∈ broadcastRoom isOpen rooms code obj → m = obj.
Proof.
  unfold broadcastRoom. destruct (rooms_get code rooms) as [rm|];
    [|by intros ?%elem_of_nil].
  intros H. by apply (to_occupants_recipient isOpen rm) in H as [_ ?].
Qed.

Lemma safeSend_error isOpen ws e w m :
  (w, MError m) ∈ safeSend isOpen (Some ws) (MError e) →
  safeSend isOpen (Some ws) (MError e) = [(ws, MError m)].
Proof.
  intros H. apply safeSend_elem in H as Hw. destruct Hw as ([= <-] & [= <-] & Ho).
  simpl. by rewrite Ho.
Qed.

#[local] Arguments safeSend : simpl never.

Lemma findIndex_free_None (ps : list (option conn)) :
  findIndex_free ps = None ↔ Forall is_Some ps.
Proof.
  unfold findIndex_free. rewrite fmap_None, list_find_None.
  apply Forall_proper; [|done]. intros [v|]; split; try done; eauto.
Qed.

Lemma on_move_refused isOpen ws roomCode index rooms m :
  verdict_of (move_validate ws roomCode index rooms) = Refused m →
  on_move isOpen ws roomCode index rooms
  = (rooms, safeSend isOpen (Some ws) (MError m)).
Proof.
  unfold on_move. destruct (move_validate ws roomCode index rooms); try done.
  by intros [= ->].
Qed.

(** Only the error answers carry an [MError], and they carry nothing else. *)
Lemma on_message_error e ws msg rooms rooms' out w m :
  on_message e ws msg rooms = Some (rooms', out) →
  (w, MError m) ∈ out →
  rooms' = rooms ∧ out = [(ws, MError m)] ∧ m ∈ reported.
Proof.
  assert (Hrep : ∀ x, x ∈ reported ↔
            x = err_not_found ∨ x = err_full ∨ x = err_not_member
            ∨ x = err_waiting ∨ x = err_not_your_turn).
  { intros x. unfold reported.
    rewrite !elem_of_cons, elem_of_nil. tauto. }
  destruct msg as [| |v|v ix|v|]; simpl;
    try (destruct (code_arg v) as [rc|]; simpl; [|done]).
  - done.
  - unfold on_create. destruct (fresh_code _ _ _ _) as [code|]; [|done].
    simpl. intros [= <- <-] H.
    repeat (apply elem_of_app in H as [H|H]);
      apply safeSend_elem in H as (_ & ? & _); done.
  - unfold on_join. destruct (rooms_get _ rooms) as [rm|].
    + destruct (includes (players rm) ws).
      * intros [= <- <-] H.
        repeat (apply elem_of_app in H as [H|H]);
          apply safeSend_elem in H as (_ & ? & _); done.
      * destruct (findIndex_free (players rm)) as [freeIndex|].
        -- intros [= <- <-] H.
           repeat (apply elem_of_app in H as [H|H]);
             (apply safeSend_elem in H as (_ & ? & _)
              || apply broadcastRoom_elem in H); done.
        -- intros [= <- <-] H. apply safeSend_error in H as Hout.
           apply safeSend_elem in H as (_ & [= ->] & _).
           split; [done|]. split; [done|]. apply Hrep. tauto.
    + intros [= <- <-] H. apply safeSend_error in H as Hout.
      apply safeSend_elem in H as (_ & [= ->] & _).
      split; [done|]. split; [done|]. apply Hrep. tauto.
  - unfold on_move.
    destruct (move_validate ws rc ix rooms) as [|e'|code rm you i] eqn:Hv.
    + intros [= <- <-] H. by apply elem_of_nil in H.
    + intros [= <- <-] H. apply safeSend_error in H as Hout.
      apply safeSend_elem in H as (_ & [= ->] & _).
      split; [done|]. split; [done|]. apply Hrep.
      unfold move_validate in Hv.
      repeat (case_match; try discriminate); simplify_eq; tauto.
    + unfold move_apply. destruct (_ || _); intros [= <- <-] H;
        repeat (apply elem_of_app in H as [H|H]);
        apply broadcastRoom_elem in H; done.
  - unfold on_restart. destruct (rooms_get _ rooms) as [rm|].
    + destruct (negb _).
      * intros [= <- <-] H. by apply elem_of_nil in H.
      * intros [= <- <-] H.
        repeat (apply elem_of_app in H as [H|H]);
          apply broadcastRoom_elem in H; done.
    + intros [= <- <-] H. by apply elem_of_nil in H.
  - intros [= <- <-] H. by apply elem_of_nil in H.
Qed.
Lemma cleanupWs_scan_no_error isOpen ws rooms todo w m :
  (w, MError m) ∉ (cleanupWs_scan isOpen ws rooms todo).2.
Proof.
  induction todo as [|[code rm] rest IH]; cbn [cleanupWs_scan].
  - apply not_elem_of_nil.
  - destruct (indexOf (players rm) ws); [|done].
    destruct (every_free _); cbn [snd]; intros Hin;
      repeat (apply elem_of_app in Hin as [Hin|Hin]);
      apply broadcastRoom_elem in Hin; done.
Qed.
End Errors.

(** C8.  Each reported condition answers the requester alone with its error
    and leaves the registry as it was: a [join] naming no room, a [join]
    into a room whose two slots are taken by others, and, in a reachable
    registry, a [move] from a connection that holds no slot of the room, a
    [move] while a slot is empty, and a [move] out of turn.  Conversely,
    whenever the answer to a message contains an error, that error is the
    only message sent, it goes to the requester, it is one of the five
    reported errors, and the registry is unchanged. *)
Theorem errors_leave_state {js : JSString} :
  (∀ isOpen ws roomCode rooms,
     rooms_get (normalize roomCode) rooms = None →
     on_join isOpen ws roomCode rooms
     = (rooms, safeSend isOpen (Some ws) (MError err_not_found)))
  ∧ (∀ isOpen ws roomCode rooms rm,
       rooms_get (normalize roomCode) rooms = Some rm →
       Some ws ∉ players rm →
       Forall is_Some (players rm) →
       on_join isOpen ws roomCode rooms
       = (rooms, safeSend isOpen (Some ws) (MError err_full)))
  ∧ (∀ isOpen ws roomCode index rooms rm,
       reachable rooms →
       rooms_get (normalize roomCode) rooms = Some rm →
       Some ws ∉ players rm →
       on_move isOpen ws roomCode index rooms
       = (rooms, safeSend isOpen (Some ws) (MError err_not_member)))
  ∧ (∀ isOpen ws roomCode i rooms rm,
       reachable rooms →
       rooms_get (normalize roomCode) rooms = Some rm →
       Some ws ∈ players rm →
       gameOver rm = false →
       in_range i = true →
       ¬ Forall is_Some (players rm) →
       on_move isOpen ws roomCode (VNumber i) rooms
       = (rooms, safeSend isOpen (Some ws) (MError err_waiting)))
  ∧ (∀ isOpen ws roomCode i rooms rm,
       reachable rooms →
       rooms_get (normalize roomCode) rooms = Some rm →
       Some ws ∈ players rm →
       gameOver rm = false →
       in_range i = true →
       Forall is_Some (players rm) →
       symbols rm !! ws ≠ Some (turn rm) →
       on_move isOpen ws roomCode (VNumber i) rooms
       = (rooms, safeSend isOpen (Some ws) (MError err_not_your_turn)))
  ∧ (∀ e ev rooms rooms' out w m,
       react e ev rooms = Some (rooms', out) →
       (w, MError m) ∈ out →
       rooms' = rooms
       ∧ (∃ msg, ev = Message w msg)
       ∧ out = [(w, MError m)]
       ∧ m ∈ reported).
Proof.
  split; [|split; [|split; [|split; [|split]]]].
  - intros isOpen ws roomCode rooms Hg. unfold on_join. by rewrite Hg.
  - intros isOpen ws roomCode rooms rm Hg Hin Hfull. unfold on_join. rewrite Hg.
    unfold includes. rewrite bool_decide_false by done.
    by rewrite (proj2 (findIndex_free_None _) Hfull).
  - intros isOpen ws roomCode index rooms rm Hreach Hg Hin.
    apply on_move_refused. rewrite verdict_in_order by by apply reachable_ok.
    unfold checks_in_order, includes. rewrite Hg.
    by rewrite bool_decide_false by done.
  - intros isOpen ws roomCode i rooms rm Hreach Hg Hin Hgo Hr Hboth.
    apply on_move_refused. rewrite verdict_in_order by by apply reachable_ok.
    unfold checks_in_order, includes. rewrite Hg, Hgo.
    rewrite bool_decide_true by done. simpl. rewrite Hr. simpl.
    by rewrite bool_decide_false by done.
  - intros isOpen ws roomCode i rooms rm Hreach Hg Hin Hgo Hr Hboth Hturn.
    apply on_move_refused. rewrite verdict_in_order by by apply reachable_ok.
    unfold checks_in_order, includes. rewrite Hg, Hgo.
    rewrite bool_decide_true by done. simpl. rewrite Hr. simpl.
    rewrite (bool_decide_true (Forall is_Some (players rm))) by done. simpl.
    by rewrite bool_decide_false by done.
  - intros e ev rooms rooms' out w m Hstep Hin.
    destruct ev as [ws|ws msg|ws]; cbn [react] in Hstep.
    + apply (inj Some), pair_equal_spec in Hstep as [<- <-]. by apply safeSend_elem in Hin as (_ & ? & _).
    + destruct (on_message_error _ _ _ _ _ _ _ _ Hstep Hin) as (? & Hout & ?).
      subst out. apply list_elem_of_singleton in Hin as Heq.
      injection Heq as ->. split; [done|]. split; [eauto|]. done.
    + injection Hstep as Hstep. exfalso.
      apply (cleanupWs_scan_no_error (isOpen e) ws rooms rooms w m).
      unfold cleanupWs in Hstep. by rewrite Hstep.
Qed.

Lemma errors_leave_state_witness :
  reachable sample_playing
  ∧ on_move (λ _, true) 2 (Some "AAAAA") (cell 4) sample_playing
    = (sample_playing, [(2, MError err_not_your_turn)]).
Proof.
  split; [exact reachable_playing|].
  refine (proj1 (proj2 (proj2 (proj2 (proj2
            errors_leave_state))))
            (λ _, true) 2 (Some "AAAAA") (Finite (inject_Z 4)) sample_playing _
            reachable_playing eq_refl _ eq_refl eq_refl _ _).
  - right. left.
  - repeat constructor; eauto.
  - discriminate.
Defined.

(** ** Disconnects *)

Section Disconnect.
Implicit Types (rooms : registry) (rm : room) (ws : conn).

Lemma indexOf_Some (ps : list (option conn)) ws idx :
  indexOf ps ws = Some idx →
  ps !! idx = Some (Some ws) ∧ ∀ j, j < idx → ps !! j ≠ Some (Some ws).
Proof.
  unfold indexOf. intros H. apply fmap_Some in H as ([i p] & Hf & ->).
  apply list_find_Some in Hf as (Hi & -> & Hbefore). split; [done|].
  intros j Hj Hp. by apply (Hbefore j (Some ws)).
Qed.

Lemma indexOf_None (ps : list (option conn)) ws :
  indexOf ps ws = None ↔ Some ws ∉ ps.
Proof.
  unfold indexOf. rewrite fmap_None, list_find_None, Forall_forall.
  split.
  - intros H Hin. by apply (H _ Hin).
  - intros H p Hin ->. done.
Qed.

Lemma every_free_true (ps : list (option conn)) :
  every_free ps = true ↔ Forall (λ p, p = None) ps.
Proof.
  unfold every_free. rewrite forallb_forall, Forall_forall.
  split; intros H p Hp.
  - apply list_elem_of_In, H in Hp. destruct p; [|done].
    apply negb_true_iff, bool_decide_eq_false in Hp. destruct Hp. eauto.
  - apply list_elem_of_In, H in Hp. by subst p.
Qed.

Lemma room_of_Some ws rooms code rm idx :
  room_of ws rooms = Some (code, rm, idx) →
  (code, rm) ∈ rooms ∧ indexOf (players rm) ws = Some idx.
Proof.
  induction rooms as [|[c r] rest IH]; simpl; [done|].
  destruct (indexOf (players r) ws) as [i|] eqn:Hi.
  - intros [= -> -> ->]. split; [left | done].
  - intros H. destruct (IH H). split; [by right | done].
Qed.

Lemma room_of_None ws rooms :
  room_of ws rooms = None ↔ ∀ code rm, (code, rm) ∈ rooms → Some ws ∉ players rm.
Proof.
  induction rooms as [|[c r] rest IH]; simpl.
  - split; [|done]. intros _ ? ? H. by apply elem_of_nil in H.
  - destruct (indexOf (players r) ws) as [i|] eqn:Hi.
    + split; [done|]. intros H. exfalso.
      apply indexOf_Some in Hi as [Hi _].
      apply (H c r); [left|]. by eapply list_elem_of_lookup_2.
    + rewrite IH. apply indexOf_None in Hi. split.
      * intros H code rm [[= -> ->]|Hin]%elem_of_cons; [done | by eapply H].
      * intros H code rm Hin. apply (H code rm). by right.
Qed.

Lemma cleanupWs_scan_room_of isOpen ws rooms todo :
  cleanupWs_scan isOpen ws rooms todo
  = match room_of ws todo with
    | None => (rooms, [])
    | Some (code, rm, idx) =>
        let rm' := vacate ws idx rm in
        let rooms1 := rooms_set code rm' rooms in
        let out := to_occupants isOpen rm' (MInfo msg_left)
                   ++ to_occupants isOpen rm' (MState (Some (view rm'))) in
        if every_free (players rm')
        then (rooms_delete code rooms, out)
        else (rooms1, out)
    end.
Proof.
  induction todo as [|[code rm] rest IH]; cbn [cleanupWs_scan room_of]; [done|].
  destruct (indexOf (players rm) ws) as [idx|]; [|done].
  fold (vacate ws idx rm).
  rewrite !broadcastRoom_set, state_msg_set, rooms_delete_set. done.
Qed.

(** Once [ws] has left its first slot it is in no slot of that room. *)
Lemma vacate_gone rm ws idx :
  room_ok rm → indexOf (players rm) ws = Some idx →
  (Some ws ∉ players (vacate ws idx rm))
  ∧ players (vacate ws idx rm) !! idx = Some None
  ∧ symbols (vacate ws idx rm) !! ws = None.
Proof.
  intros [(p0 & p1 & Hp & _ & Hne) _ _ _ _] Hidx.
  apply indexOf_Some in Hidx as [Hi Hfirst]. unfold vacate. simpl.
  rewrite lookup_delete_eq. rewrite Hp in *.
  destruct idx as [|[|idx]]; simplify_eq/=.
  - split; [|done]. rewrite !not_elem_of_cons.
    split; [done|]. split; [|apply not_elem_of_nil].
    intros <-. by apply Hne; [eauto|].
  - split; [|done]. rewrite !not_elem_of_cons.
    split; [|split; [done | apply not_elem_of_nil]].
    intros <-. by apply (Hfirst 0); [lia|].
Qed.
End Disconnect.

(** C6.  Every room of a reachable registry has an occupied slot.  A
    disconnect of [ws] looks for the first room, in the order of the
    registry, that has [ws] in a slot; when there is none nothing changes.
    Otherwise that slot is emptied and the symbol entry of [ws] removed, the
    other rooms stay as they are, and in the same reaction the room is
    removed from the registry exactly when both its slots are now empty: a
    room with an occupant left stays, with the vacated slot empty.  A [join]
    that names the code of the room just removed is answered "room not
    found". *)
Theorem room_lifetime {js : JSString} isOpen ws rooms :
  reachable rooms →
  (∀ code rm, rooms_get code rooms = Some rm → ∃ w, Some w ∈ players rm)
  ∧ match room_of ws rooms with
    | None =>
        (∀ code rm, rooms_get code rooms = Some rm → Some ws ∉ players rm)
        ∧ cleanupWs isOpen ws rooms = (rooms, [])
    | Some (code, rm, idx) =>
        let rm' := vacate ws idx rm in
        let result := cleanupWs isOpen ws rooms in
        rooms_get code rooms = Some rm
        ∧ players rm !! idx = Some (Some ws)
        ∧ players rm' !! idx = Some None
        ∧ (∀ j, j ≠ idx → players rm' !! j = players rm !! j)
        ∧ symbols rm' !! ws = None
        ∧ (Some ws ∉ players rm')
        ∧ (board rm', turn rm', gameOver rm') = (board rm, turn rm, gameOver rm)
        ∧ (∀ c, c ≠ code → rooms_get c result.1 = rooms_get c rooms)
        ∧ (rooms_get code result.1 = None
           ↔ Forall (λ p, p = None) (players rm'))
        ∧ ((∃ w, Some w ∈ players rm') → rooms_get code result.1 = Some rm')
        ∧ result.2 = to_occupants isOpen rm' (MInfo msg_left)
                     ++ to_occupants isOpen rm' (MState (Some (view rm')))
        ∧ (rooms_get code result.1 = None →
           ∀ isOpen' w,
             on_join isOpen' w (Some code) result.1
             = (result.1, safeSend isOpen' (Some w) (MError err_not_found)))
    end.
Proof.
  intros Hreach. apply reachable_ok in Hreach as Hok.
  split.
  { intros code rm Hg.
    destruct (registry_ok_get _ _ _ Hok Hg)
      as [_ [(p0 & p1 & Hp & Hocc & _) _ _ _ _]].
    rewrite Hp. destruct Hocc as [[w ->]|[w ->]]; exists w.
    - left.
    - right. left. }
  unfold cleanupWs. rewrite cleanupWs_scan_room_of.
  destruct (room_of ws rooms) as [[[code rm] idx]|] eqn:Hroom.
  - apply room_of_Some in Hroom as [Hin Hidx].
    destruct Hok as [Hnd Hall]. destruct (Hall _ _ Hin) as [Hcode Hrm].
    pose proof (elem_of_rooms_get _ _ _ Hnd Hin) as Hg.
    destruct (vacate_gone rm ws idx Hrm Hidx) as (Hgone & Hslot & Hsym).
    apply indexOf_Some in Hidx as [Hi _].
    cbv zeta.
    assert (Hkeep : ¬ Forall (λ p, p = None) (players (vacate ws idx rm)) →
              every_free (players (vacate ws idx rm)) = false).
    { intros Hno. apply not_true_iff_false. by rewrite every_free_true. }
    split; [done|]. split; [done|]. split; [done|].
    split; [intros j Hj; by apply list_lookup_insert_ne|].
    split; [done|]. split; [done|]. split; [done|].
    destruct (every_free (players (vacate ws idx rm))) eqn:Hfree.
    + apply every_free_true in Hfree. cbn [fst snd].
      split; [intros c Hc; by apply rooms_get_delete_ne|].
      split; [by rewrite rooms_get_delete_eq|].
      split.
      { intros [w Hw]. rewrite Forall_forall in Hfree.
        by apply Hfree in Hw. }
      split; [done|].
      intros Hnone isOpen' w. unfold on_join.
      by rewrite (normalize_valid _ Hcode), Hnone.
    + cbn [fst snd].
      assert (Hsome : ¬ Forall (λ p, p = None) (players (vacate ws idx rm))).
      { intros Hall'. apply every_free_true in Hall'. congruence. }
      split; [intros c Hc; by apply rooms_get_set_ne|].
      rewrite rooms_get_set_eq.
      split; [split; [done | by intros ?]|].
      split; [done|]. split; [done|]. done.
  - split; [|done]. intros code rm Hg.
    apply (proj1 (room_of_None ws rooms) Hroom code rm).
    by apply rooms_get_elem_of.
Qed.

Lemma room_lifetime_witness :
  reachable sample_waiting
  ∧ room_of 1 sample_waiting = Some ("AAAAA", new_room 1, 0)
  ∧ (cleanupWs (λ _, true) 1 sample_waiting).1 = []
  ∧ on_join (λ _, true) 2 (Some "AAAAA") (cleanupWs (λ _, true) 1 sample_waiting).1
    = ((cleanupWs (λ _, true) 1 sample_waiting).1,
       safeSend (λ _, true) (Some 2) (MError err_not_found)).
Proof.
  split; [exact reachable_waiting|]. split; [reflexivity|].
  split; [reflexivity|].
  pose proof (proj2 (room_lifetime (λ _, true) 1 sample_waiting
                       reachable_waiting)) as H.
  change (room_of 1 sample_waiting) with (Some ("AAAAA", new_room 1, 0)) in H.
  cbv zeta in H.
  destruct H as (_ & _ & _ & _ & _ & _ & _ & _ & _ & _ & _ & Hjoin).
  apply Hjoin. reflexivity.
Defined.

(** * Further properties of the server *)

(** ** Invariants of reachable registries *)

Section Invariants.
Context {js : JSString}.
Implicit Types (rooms : registry) (rm : room) (bd : list string).

Lemma rooms_get_set rooms code rm c :
  rooms_get c (rooms_set code rm rooms)
  = if decide (c = code) then Some rm else rooms_get c rooms.
Proof.
  case_decide as Hc.
  - subst c. apply rooms_get_set_eq.
  - by apply rooms_get_set_ne.
Qed.

Lemma count_cells bd :
  Forall is_cell bd → count "X" bd + count "O" bd + count "" bd = length bd.
Proof.
  induction 1 as [|v bd Hv _ IH]; [done|].
  rewrite !count_cons. simpl.
  destruct Hv as [-> | [-> | ->]]; simpl; lia.
Qed.

Lemma scan_wins_truthy bd lines :
  truthy_opt (scan_wins bd lines) = bool_decide (is_Some (scan_wins bd lines)).
Proof.
  destruct (scan_wins bd lines) as [v|] eqn:Hscan.
  - rewrite (bool_decide_true (is_Some (Some v))) by eauto.
    apply scan_wins_Some in Hscan as (l & _ & _ & _ & _ & Hne & _).
    by apply truthy_true.
  - rewrite (bool_decide_false (is_Some None)); [done|]. by intros [? ?].
Qed.

Lemma settled_empty ps sy :
  room_settled (Room ps sy (replicate 9 "") "X" false).
Proof.
  unfold room_settled. cbn [board gameOver].
  change (scan_wins (replicate 9 "") WINS) with (@None string).
  change (board_full (replicate 9 "")) with false.
  split; [done|]. by intros [[? ?]|?].
Qed.

(** The room left by the write of an accepted move is settled. *)
Lemma move_apply_settled isOpen code rm you i rooms rm' :
  rooms_get code (move_apply isOpen code rm you i rooms).1 = Some rm' →
  room_settled rm'.
Proof.
  unfold move_apply. rewrite scan_wins_truthy.
  set (bd := array_set (board rm) i you).
  destruct (scan_wins bd WINS) as [v|] eqn:Hscan.
  - rewrite (bool_decide_true (is_Some (Some v))) by eauto.
    cbn [orb fst]. rewrite rooms_get_set_eq.
    intros [= <-]. unfold room_settled. cbn [board gameOver].
    fold bd. rewrite Hscan. split; [eauto | done].
  - rewrite (bool_decide_false (is_Some None)) by by intros [? ?].
    cbn [orb negb andb].
    destruct (board_full bd) eqn:Hfull; cbn [fst]; rewrite rooms_get_set_eq;
      intros [= <-]; unfold room_settled; cbn [board gameOver]; fold bd;
      rewrite Hscan, Hfull.
    + split; [auto | done].
    + split; [done|]. by intros [[? ?]|?].
Qed.

Lemma move_apply_other isOpen code rm you i rooms c :
  c ≠ code →
  rooms_get c (move_apply isOpen code rm you i rooms).1 = rooms_get c rooms.
Proof.
  intros Hc. unfold move_apply.
  destruct (_ || _); cbn [fst]; by rewrite rooms_get_set, decide_False.
Qed.

Lemma move_apply_keys isOpen code rm you i rooms :
  code ∈ rooms.*1 →
  (move_apply isOpen code rm you i rooms).1.*1 = rooms.*1.
Proof.
  intros Hin. unfold move_apply.
  destruct (_ || _); cbn [fst]; by apply rooms_set_keys_present.
Qed.

Lemma rooms_get_keys rooms code rm :
  rooms_get code rooms = Some rm → code ∈ rooms.*1.
Proof.
  intros Hg. apply rooms_has_true. unfold rooms_has.
  apply bool_decide_eq_true. eauto.
Qed.

Lemma reachable_settled rooms :
  reachable rooms → ∀ code rm, rooms_get code rooms = Some rm → room_settled rm.
Proof.
  induction 1 as [|e ev rooms rooms' out Hreach IH Hrnd Hstep]; [done|].
  assert (Hframe : ∀ rm rm', room_settled rm → board rm' = board rm →
            gameOver rm' = gameOver rm → room_settled rm').
  { unfold room_settled. by intros rm rm' H -> ->. }
  pose proof (reachable_ok _ Hreach) as [Hnd _].
  intros code rm.
  destruct ev as [ws|ws [| |v|v ix|v|]|ws]; cbn [react on_message] in Hstep;
    try (destruct (code_arg v) as [rc|]; cbn [mbind option_bind] in Hstep;
         [|done]).
  - apply (inj Some), pair_equal_spec in Hstep as [<- _]. eauto.
  - done.
  - unfold on_create in Hstep.
    destruct (fresh_code _ _ _ _) as [c|]; [|done].
    apply (inj Some), pair_equal_spec in Hstep as [<- _].
    rewrite rooms_get_set. case_decide; [|eauto].
    intros [= <-]. apply settled_empty.
  - apply (inj Some) in Hstep. unfold on_join in Hstep.
    destruct (rooms_get _ rooms) as [rm0|] eqn:Hg;
      [|apply pair_equal_spec in Hstep as [<- _]; eauto].
    destruct (includes _ _);
      [apply pair_equal_spec in Hstep as [<- _]; eauto|].
    destruct (findIndex_free _);
      [|apply pair_equal_spec in Hstep as [<- _]; eauto].
    apply pair_equal_spec in Hstep as [<- _].
    rewrite rooms_get_set. case_decide; [|eauto].
    intros [= <-]. by apply (Hframe rm0); [eauto|..].
  - apply (inj Some) in Hstep. unfold on_move in Hstep.
    destruct (move_validate ws rc ix rooms) as [|m|c rm0 you i] eqn:Hv;
      [apply pair_equal_spec in Hstep as [<- _]; eauto..|].
    replace rooms' with (move_apply (isOpen e) c rm0 you i rooms).1
      by by rewrite Hstep.
    destruct (decide (code = c)) as [->|Hne].
    + apply move_apply_settled.
    + rewrite move_apply_other by done. eauto.
  - apply (inj Some) in Hstep. unfold on_restart in Hstep.
    destruct (rooms_get _ rooms) as [rm0|] eqn:Hg;
      [|apply pair_equal_spec in Hstep as [<- _]; eauto].
    destruct (negb _);
      [apply pair_equal_spec in Hstep as [<- _]; eauto|].
    apply pair_equal_spec in Hstep as [<- _].
    rewrite rooms_get_set. case_decide; [|eauto].
    intros [= <-]. apply settled_empty.
  - apply (inj Some), pair_equal_spec in Hstep as [<- _]. eauto.
  - apply (inj Some) in Hstep. unfold cleanupWs in Hstep.
    rewrite cleanupWs_scan_room_of in Hstep.
    destruct (room_of ws rooms) as [[[c rm0] idx]|] eqn:Hroom;
      [|apply pair_equal_spec in Hstep as [<- _]; eauto].
    apply room_of_Some in Hroom as [Hin _].
    apply (elem_of_rooms_get _ _ _ Hnd) in Hin.
    cbv zeta in Hstep.
    destruct (every_free _); apply pair_equal_spec in Hstep as [<- _].
    + destruct (decide (code = c)) as [->|Hne].
      * by rewrite rooms_get_delete_eq.
      * rewrite rooms_get_delete_ne by done. eauto.
    + rewrite rooms_get_set. case_decide; [|eauto].
      intros [= <-]. by apply (Hframe rm0); [eauto|..].
Qed.
End Invariants.

(** X1.  In every room of a reachable registry there are exactly two slots,
    at least one of them occupied, never both by the same connection, and
    the symbol table holds exactly the occupant of slot 0 with "X" and the
    occupant of slot 1 with "O". *)
Theorem slots_match_symbols {js : JSString} rooms code rm :
  reachable rooms →
  rooms_get code rooms = Some rm →
  ∃ p0 p1,
    players rm = [p0; p1]
    ∧ (is_Some p0 ∨ is_Some p1)
    ∧ (is_Some p0 → p0 ≠ p1)
    ∧ ∀ w s, symbols rm !! w = Some s
             ↔ (p0 = Some w ∧ s = "X") ∨ (p1 = Some w ∧ s = "O").
Proof.
  intros Hreach Hg. apply reachable_ok in Hreach as Hok.
  destruct (registry_ok_get _ _ _ Hok Hg)
    as [_ [(p0 & p1 & Hp & Hocc & Hne) Hsym _ _ _]].
  exists p0, p1. repeat split; try done.
  - intros Hs. apply Hsym in Hs. rewrite Hp in Hs. simpl in Hs. naive_solver.
  - intros Hs. apply Hsym. rewrite Hp. simpl. naive_solver.
Qed.

Lemma slots_match_symbols_witness :
  reachable sample_playing
  ∧ ∃ p0 p1, [Some 1; Some 2] = [p0; p1] ∧ (is_Some p0 → p0 ≠ p1).
Proof.
  split; [exact reachable_playing|].
  destruct (slots_match_symbols sample_playing "AAAAA" _ reachable_playing
              eq_refl) as (p0 & p1 & Hp & _ & Hne & _).
  exists p0, p1. split; [exact Hp | exact Hne].
Defined.

(** X2.  In every room of a reachable registry the board has 9 cells, each
    empty, "X" or "O", so that the three counts add up to 9, and the turn
    is "X" or "O". *)
Theorem board_well_formed {js : JSString} rooms code rm :
  reachable rooms →
  rooms_get code rooms = Some rm →
  length (board rm) = 9
  ∧ Forall is_cell (board rm)
  ∧ count "X" (board rm) + count "O" (board rm) + count "" (board rm) = 9
  ∧ (turn rm = "X" ∨ turn rm = "O").
Proof.
  intros Hreach Hg. apply reachable_ok in Hreach as Hok.
  destruct (registry_ok_get _ _ _ Hok Hg) as [_ [_ _ [Hlen Hcells] Hturn _]].
  repeat split; try done. by rewrite count_cells.
Qed.

Lemma board_well_formed_witness :
  reachable sample_won
  ∧ count "X" ["X"; "X"; "X"; ""; "O"; "O"; ""; ""; ""]
    + count "O" ["X"; "X"; "X"; ""; "O"; "O"; ""; ""; ""]
    + count "" ["X"; "X"; "X"; ""; "O"; "O"; ""; ""; ""] = 9.
Proof.
  split; [exact reachable_won|].
  exact (proj1 (proj2 (proj2 (board_well_formed sample_won "AAAAA" _
                                reachable_won eq_refl)))).
Defined.



(** X4.  The [playersCount] that [roomState] reports for a room of a
    reachable registry is 1 or 2, and it is 2 exactly when both slots are
    occupied. *)
Theorem players_count_bounds {js : JSString} rooms code rm :
  reachable rooms →
  rooms_get code rooms = Some rm →
  ∃ v, roomState rooms code = Some v
       ∧ view_playersCount v = playersCount (players rm)
       ∧ 1 ≤ view_playersCount v ≤ 2
       ∧ (view_playersCount v = 2 ↔ Forall is_Some (players rm)).
Proof.
  intros Hreach Hg. apply reachable_ok in Hreach as Hok.
  destruct (registry_ok_get _ _ _ Hok Hg) as [_ Hrm].
  pose proof (players_both rm Hrm) as Hboth.
  destruct Hrm as [(p0 & p1 & Hp & Hocc & _) _ _ _ _].
  unfold roomState. rewrite Hg. eexists. split; [done|]. simpl.
  split; [done|].
  assert (Hcnt : 1 ≤ playersCount (players rm) ≤ 2).
  { rewrite Hp.
    destruct p0, p1; try (vm_compute; lia).
    destruct Hocc as [[? ?]|[? ?]]; done. }
  split; [done|]. split.
  - intros H2. apply dec_stable. intros Hno. apply Hboth in Hno. lia.
  - intros Hall. destruct (decide (playersCount (players rm) < 2)) as [Hlt|];
      [|lia]. by apply Hboth in Hlt.
Qed.

Lemma players_count_bounds_witness :
  reachable sample_waiting
  ∧ ∃ v, roomState sample_waiting "AAAAA" = Some v
         ∧ 1 ≤ view_playersCount v ≤ 2.
Proof.
  split; [exact reachable_waiting|].
  destruct (players_count_bounds sample_waiting "AAAAA" _ reachable_waiting
              eq_refl) as (v & Hv & _ & Hb & _).
  exists v. split; [exact Hv | exact Hb].
Defined.



(** ** The effect of an accepted move *)

Section MoveEffect.
Implicit Types (rooms : registry) (rm : room) (bd : list string).

(** A line that is won after a write to an empty cell of a board without a
    won line goes through that cell. *)
Lemma new_line_through_cell bd (k : nat) (you v : string) lines :
  bd !! k = Some "" →
  scan_wins bd lines = None →
  scan_wins (<[k:=you]> bd) lines = Some v →
  v = you.
Proof.
  intros Hk Hnone Hsome.
  apply scan_wins_Some in Hsome as (line & pre & post & -> & _ & Hline).
  rewrite scan_wins_None, Forall_app, Forall_cons in Hnone.
  destruct Hnone as (_ & Hno & _).
  destruct line as [[a b] c]. destruct Hline as (Hne & Ha & Hb & Hc).
  simpl in Ha, Hb, Hc.
  assert (Hlt : k < length bd) by by eapply lookup_lt_Some.
  destruct (decide (k = a)) as [->|Hka];
    [rewrite list_lookup_insert_eq in Ha by done; congruence|].
  destruct (decide (k = b)) as [->|Hkb];
    [rewrite list_lookup_insert_eq in Hb by done; congruence|].
  destruct (decide (k = c)) as [->|Hkc];
    [rewrite list_lookup_insert_eq in Hc by done; congruence|].
  rewrite list_lookup_insert_ne in Ha, Hb, Hc by done.
  exfalso. apply (Hno v). by repeat split.
Qed.

Lemma move_apply_gameover isOpen code rm you i rooms w v :
  (w, MGameOver v) ∈ (move_apply isOpen code rm you i rooms).2 →
  scan_wins (array_set (board rm) i you) WINS = Some v
  ∨ (scan_wins (array_set (board rm) i you) WINS = None
     ∧ board_full (array_set (board rm) i you) = true
     ∧ v = "D").
Proof.
  unfold move_apply. rewrite scan_wins_truthy.
  destruct (scan_wins (array_set (board rm) i you) WINS) as [u|] eqn:Hscan.
  - rewrite (bool_decide_true (is_Some (Some u))) by eauto. cbn [orb snd].
    intros Hin. apply elem_of_app in Hin as [Hin|Hin];
      apply broadcastRoom_elem in Hin; [|done].
    left. simpl in Hin. congruence.
  - rewrite (bool_decide_false (is_Some None)) by by intros [? ?].
    cbn [orb negb andb].
    destruct (board_full _); cbn [snd]; intros Hin.
    + apply elem_of_app in Hin as [Hin|Hin];
        apply broadcastRoom_elem in Hin; [|done].
      right. split; [done|]. split; [done|]. congruence.
    + by apply broadcastRoom_elem in Hin.
Qed.
End MoveEffect.

(** X6.  A gameover message names the right outcome.  After an accepted
    move in a reachable registry a line of the board can only be won by the
    player who moved, whose symbol is "X" or "O"; a gameover message that
    carries a symbol carries the mover's, and the board it is sent about
    has a won line of that symbol; a gameover message that carries "D" is
    sent about a board with no won line and no empty cell. *)
Theorem winner_is_mover {js : JSString} isOpen ws roomCode index rooms :
  reachable rooms →
  move_accepted ws roomCode index rooms →
  let result := on_move isOpen ws roomCode index rooms in
  ∃ rm you rm',
    rooms_get (normalize roomCode) rooms = Some rm
    ∧ symbols rm !! ws = Some you
    ∧ (you = "X" ∨ you = "O")
    ∧ rooms_get (normalize roomCode) result.1 = Some rm'
    ∧ (∀ v, scan_wins (board rm') WINS = Some v → v = you)
    ∧ (∀ w v, (w, MGameOver v) ∈ result.2 →
         (v = you ∧ ∃ line, first_line (board rm') WINS line you)
         ∨ (v = "D"
            ∧ Forall (λ l, ∀ u, ¬ line_of (board rm') l u) WINS
            ∧ Forall (λ c, c ≠ "") (board rm'))).
Proof.
  intros Hreach (code & rm & you & i & Hv) result.
  unfold result, on_move. rewrite Hv.
  apply move_validate_ok in Hv
    as (-> & Hg & Hs & _ & Hgo & _ & _ & _ & _ & _ & Hcell).
  apply array_get_Some in Hcell as (k & Hi & Hk).
  pose proof (reachable_settled _ Hreach _ _ Hg) as Hset.
  apply reachable_ok in Hreach as Hok.
  destruct (registry_ok_get _ _ _ Hok Hg) as [_ Hrm].
  assert (Hnone : scan_wins (board rm) WINS = None).
  { apply eq_None_not_Some. intros Hsome.
    assert (gameOver rm = true) by (apply Hset; by left). congruence. }
  assert (Hnew : ∀ v, scan_wins (array_set (board rm) i you) WINS = Some v →
            v = you).
  { intros v. unfold array_set. rewrite Hi.
    by apply new_line_through_cell. }
  destruct (move_apply_room isOpen (normalize roomCode) rm you i rooms)
    as (rm' & Hg' & _ & _ & Hbd).
  exists rm, you, rm'. split; [done|]. split; [done|].
  split.
  { apply (ok_symbols rm Hrm) in Hs as [[_ ->]|[_ ->]]; auto. }
  split; [done|]. rewrite Hbd. split; [done|].
  intros w v Hin.
  apply move_apply_gameover in Hin as [Hscan|(Hscan & Hfull & ->)].
  - left. pose proof (Hnew v Hscan) as ->. split; [done|].
    by apply scan_wins_Some.
  - right. split; [done|]. split; [by apply scan_wins_None|].
    by apply board_full_true.
Qed.

Lemma winner_is_mover_witness :
  reachable sample_before_win
  ∧ move_accepted 1 (Some "AAAAA") (cell 2) sample_before_win
  ∧ ((2, MGameOver "X")
     ∈ (on_move (λ _, true) 1 (Some "AAAAA") (cell 2) sample_before_win).2)
  ∧ symbols (Room [Some 1; Some 2] (<[2:="O"]> {[1:="X"]})
                  ["X"; "X"; ""; ""; "O"; "O"; ""; ""; ""] "X" false) !! 1
    = Some "X"
  ∧ ∃ line, first_line ["X"; "X"; "X"; ""; "O"; "O"; ""; ""; ""] WINS line "X".
Proof.
  assert (Hacc : move_accepted 1 (Some "AAAAA") (cell 2) sample_before_win).
  { eexists _, _, _, _. reflexivity. }
  assert (Hin : (2, MGameOver "X")
                ∈ (on_move (λ _, true) 1 (Some "AAAAA") (cell 2)
                     sample_before_win).2) by (right; left).
  split; [exact reachable_before_win|]. split; [exact Hacc|].
  split; [exact Hin|].
  destruct (winner_is_mover (λ _, true) 1 (Some "AAAAA") (cell 2)
              sample_before_win reachable_before_win Hacc)
    as (rm & you & rm' & Hg & Hs & _ & Hg' & _ & Hmsg).
  injection Hg as <-. split; [reflexivity|].
  injection Hg' as <-.
  destruct (Hmsg 2 "X" Hin) as [[<- Hline]|[Hd _]]; [exact Hline|].
  discriminate Hd.
Defined.

(** X7.  An accepted move fills exactly one empty cell with the requester's
    symbol: the room has one empty cell fewer and one cell more with that
    symbol, the count of every other value is unchanged, and the slots and
    the symbol table are untouched. *)
Theorem move_fills_one_cell {js : JSString} isOpen ws roomCode index rooms :
  move_accepted ws roomCode index rooms →
  ∃ rm rm' you,
    rooms_get (normalize roomCode) rooms = Some rm
    ∧ rooms_get (normalize roomCode)
        (on_move isOpen ws roomCode index rooms).1 = Some rm'
    ∧ symbols rm !! ws = Some you
    ∧ you ≠ ""
    ∧ count "" (board rm') + 1 = count "" (board rm)
    ∧ count you (board rm') = count you (board rm) + 1
    ∧ (∀ s, s ≠ "" → s ≠ you → count s (board rm') = count s (board rm))
    ∧ length (board rm') = length (board rm)
    ∧ players rm' = players rm
    ∧ symbols rm' = symbols rm.
Proof.
  intros (code & rm & you & i & Hv). unfold on_move. rewrite Hv.
  apply move_validate_ok in Hv
    as (-> & Hg & Hs & Ht & _ & _ & _ & _ & _ & _ & Hcell).
  apply array_get_Some in Hcell as (k & Hi & Hk).
  apply truthy_true in Ht.
  destruct (move_apply_room isOpen (normalize roomCode) rm you i rooms)
    as (rm' & Hg' & Hp & Hsy & Hbd).
  exists rm, rm', you. rewrite Hbd. unfold array_set. rewrite Hi.
  repeat split; try done.
  - pose proof (count_insert "" you "" (board rm) k Hk) as Hc.
    rewrite decide_True in Hc by done. rewrite decide_False in Hc by done.
    lia.
  - pose proof (count_insert you you "" (board rm) k Hk) as Hc.
    rewrite decide_False in Hc by done. rewrite decide_True in Hc by done.
    lia.
  - intros s Hs1 Hs2.
    pose proof (count_insert s you "" (board rm) k Hk) as Hc.
    rewrite !decide_False in Hc by done. lia.
  - apply length_insert.
Qed.

Lemma move_fills_one_cell_witness :
  move_accepted 1 (Some "AAAAA") (cell 4) sample_playing
  ∧ ∃ rm',
      rooms_get "AAAAA"
        (on_move (λ _, true) 1 (Some "AAAAA") (cell 4) sample_playing).1
      = Some rm'
      ∧ count "" (board rm') + 1 = 9.
Proof.
  assert (Hacc : move_accepted 1 (Some "AAAAA") (cell 4) sample_playing).
  { eexists _, _, _, _. reflexivity. }
  split; [exact Hacc|].
  destruct (move_fills_one_cell (λ _, true) 1 (Some "AAAAA") (cell 4)
              sample_playing Hacc)
    as (rm & rm' & you & Hg & Hg' & _ & _ & Hc & _).
  exists rm'. split; [exact Hg'|].
  vm_compute in Hg. injection Hg as <-. exact Hc.
Defined.

(** ** Creating and joining rooms *)

Section Joining.
Context {js : JSString}.
Implicit Types (rooms : registry) (rm : room) (ws : conn).

Lemma rooms_set_absent rooms code rm :
  code ∉ rooms.*1 → rooms_set code rm rooms = rooms ++ [(code, rm)].
Proof.
  induction rooms as [|[c r] rest IH]; simpl; intros Hin; [done|].
  apply not_elem_of_cons in Hin as [? ?].
  rewrite decide_False by done. by rewrite IH.
Qed.

Lemma findIndex_free_Some (ps : list (option conn)) idx :
  findIndex_free ps = Some idx →
  ps !! idx = Some None ∧ ∀ j, j < idx → ps !! j ≠ Some None.
Proof.
  unfold findIndex_free. intros H. apply fmap_Some in H as ([i p] & Hf & ->).
  apply list_find_Some in Hf as (Hi & -> & Hbefore). split; [done|].
  intros j Hj Hp. by apply (Hbefore j None).
Qed.

Lemma on_join_fresh isOpen ws roomCode rooms rm idx :
  rooms_get (normalize roomCode) rooms = Some rm →
  Some ws ∉ players rm →
  findIndex_free (players rm) = Some idx →
  let rm' := Room (<[idx:=Some ws]> (players rm))
                  (<[ws:=symbol_of_slot idx]> (symbols rm))
                  (board rm) (turn rm) (gameOver rm) in
  on_join isOpen ws roomCode rooms
  = (rooms_set (normalize roomCode) rm' rooms,
     safeSend isOpen (Some ws)
       (MJoined (normalize roomCode) (Some (symbol_of_slot idx)))
     ++ safeSend isOpen (Some ws) (MState (Some (view rm')))
     ++ to_occupants isOpen rm' (MInfo msg_joined2)
     ++ to_occupants isOpen rm' (MState (Some (view rm')))).
Proof.
  intros Hg Hin Hfree. unfold on_join. rewrite Hg.
  unfold includes. rewrite bool_decide_false by done. rewrite Hfree.
  cbv zeta. fold (symbol_of_slot idx).
  by rewrite !broadcastRoom_set, state_msg_set.
Qed.
End Joining.

(** X8.  [create] finishes as soon as one generated code is free: it is
    still looking for a code after [fuel] tries exactly when each of the
    first [fuel] generated codes is the code of a room.  When it finishes
    it has put the new room last in the registry, under a code that no room
    had, and left every existing room as it was; the creator holds slot 0
    with "X", slot 1 is empty, and the creator, if open, is sent the join
    confirmation, the state of the new room (empty board, turn "X", one
    player) and the information message, in that order. *)
Theorem create_appends_room isOpen rnd fuel ws rooms :
  (on_create isOpen rnd fuel ws rooms = None
   ↔ ∀ t, t < fuel → attempt rnd t ∈ rooms.*1)
  ∧ ∀ rooms' out,
      on_create isOpen rnd fuel ws rooms = Some (rooms', out) →
      ∃ code,
        rooms' = rooms ++ [(code, new_room ws)]
        ∧ (code ∉ rooms.*1)
        ∧ rooms_get code rooms' = Some (new_room ws)
        ∧ (∀ c, c ≠ code → rooms_get c rooms' = rooms_get c rooms)
        ∧ players (new_room ws) = [Some ws; None]
        ∧ symbols (new_room ws) !! ws = Some "X"
        ∧ out = if isOpen ws
                then [(ws, MJoined code (Some "X"));
                      (ws, MState (Some (RoomView (replicate 9 "") "X"
                                           false 1)));
                      (ws, MInfo msg_created)]
                else [].
Proof.
  pose proof (fresh_code_Some fuel rnd 0 rooms) as Hspec. simpl in Hspec.
  unfold on_create. split.
  - destruct (fresh_code fuel rnd 0 rooms) as [code|] eqn:Hf; simpl.
    + split; [done|]. intros Hbusy. exfalso.
      destruct (proj1 (Hspec code) eq_refl) as (t & Ht & -> & Hfree & _).
      apply rooms_get_None in Hfree. by apply Hfree, Hbusy.
    + split; [|done]. intros _ t Ht.
      destruct (decide (attempt rnd t ∈ rooms.*1)) as [|Hfree]; [done|].
      apply rooms_get_None in Hfree.
      destruct (fresh_code_total fuel rnd 0 rooms t Ht Hfree) as [code Hc].
      simpl in Hc. congruence.
  - intros rooms' out.
    destruct (fresh_code fuel rnd 0 rooms) as [code|] eqn:Hf; [|done].
    simpl. intros [= <- <-]. exists code.
    assert (Hfree : rooms_get code rooms = None).
    { destruct (proj1 (Hspec code) eq_refl) as (t & _ & _ & Hnone & _).
      done. }
    apply rooms_get_None in Hfree as Hnot.
    split; [by apply rooms_set_absent|]. split; [done|].
    split; [apply rooms_get_set_eq|].
    split; [intros c Hc; by apply rooms_get_set_ne|].
    split; [done|]. split; [apply lookup_singleton_eq|].
    rewrite state_msg_set. by destruct (isOpen ws).
Qed.

Lemma create_appends_room_witness :
  on_create (λ _, true) (random sample_env) 1 3 sample_playing = None
  ∧ ∃ code,
      fst <$> on_create (λ _, true) (random sample_env2) 2 3 sample_playing
      = Some (sample_playing ++ [(code, new_room 3)])
      ∧ (code ∉ sample_playing.*1).
Proof.
  split.
  - apply (create_appends_room (λ _, true) (random sample_env) 1 3
             sample_playing).
    intros t Ht. replace t with 0 by lia. left.
  - destruct (on_create (λ _, true) (random sample_env2) 2 3 sample_playing)
      as [[rooms' out]|] eqn:Hc; [|by vm_compute in Hc].
    destruct (proj2 (create_appends_room _ _ _ _ _) _ _ Hc)
      as (code & -> & Hfresh & _).
    exists code. split; [reflexivity | exact Hfresh].
Defined.

(** X9.  In a reachable registry, [join] from a connection that is not in
    the room, while the room has an empty slot, seats the requester in the
    first empty slot with the symbol bound to that slot; the room then has
    both slots occupied, and its board, turn and gameOver are as before.
    The requester is sent the join confirmation and the state, then every
    occupant the "second player" message and the state. *)
Theorem join_takes_free_slot {js : JSString} isOpen ws roomCode rooms rm :
  reachable rooms →
  rooms_get (normalize roomCode) rooms = Some rm →
  Some ws ∉ players rm →
  ¬ Forall is_Some (players rm) →
  let result := on_join isOpen ws roomCode rooms in
  ∃ idx rm',
    players rm !! idx = Some None
    ∧ (∀ j, j < idx → players rm !! j ≠ Some None)
    ∧ rooms_get (normalize roomCode) result.1 = Some rm'
    ∧ players rm' = <[idx:=Some ws]> (players rm)
    ∧ symbols rm' = <[ws:=symbol_of_slot idx]> (symbols rm)
    ∧ Forall is_Some (players rm')
    ∧ (board rm', turn rm', gameOver rm') = (board rm, turn rm, gameOver rm)
    ∧ result.2
      = safeSend isOpen (Some ws)
          (MJoined (normalize roomCode) (Some (symbol_of_slot idx)))
        ++ safeSend isOpen (Some ws) (MState (Some (view rm')))
        ++ to_occupants isOpen rm' (MInfo msg_joined2)
        ++ to_occupants isOpen rm' (MState (Some (view rm'))).
Proof.
  intros Hreach Hg Hin Hroom result. apply reachable_ok in Hreach as Hok.
  destruct (registry_ok_get _ _ _ Hok Hg)
    as [_ [(p0 & p1 & Hp & Hocc & _) _ _ _ _]].
  destruct (findIndex_free (players rm)) as [idx|] eqn:Hfree;
    [|by apply findIndex_free_None in Hfree].
  apply findIndex_free_Some in Hfree as Hidx. destruct Hidx as [Hi Hfirst].
  unfold result. rewrite (on_join_fresh _ _ _ _ _ _ Hg Hin Hfree).
  eexists idx, _. cbn [fst snd]. rewrite rooms_get_set_eq.
  repeat split; try done. cbn [players]. rewrite Hp in *.
  destruct idx as [|[|idx]]; simplify_eq/=.
  - destruct Hocc as [[? ?]|Hp1]; [done|]. by repeat constructor.
  - destruct p0 as [a|]; [|by destruct (Hfirst 0); [lia|]].
    by repeat constructor.
Qed.

Lemma join_takes_free_slot_witness :
  reachable sample_waiting
  ∧ (Some 2 ∉ [Some 1; None])
  ∧ ¬ Forall is_Some [Some 1; None]
  ∧ (on_join (λ _, true) 2 (Some "aaaaa") sample_waiting).1 = sample_playing.
Proof.
  assert (Hin : Some 2 ∉ [Some 1; None]).
  { intros H. apply elem_of_cons in H as [H|H]; [discriminate H|].
    apply elem_of_cons in H as [H|H]; [discriminate H|].
    by apply elem_of_nil in H. }
  assert (Hfree : ¬ Forall is_Some [Some 1; (None : option conn)]).
  { intros H. apply Forall_cons in H as [_ H].
    apply Forall_cons in H as [[? H] _]. discriminate H. }
  split; [exact reachable_waiting|]. split; [exact Hin|].
  split; [exact Hfree|].
  destruct (join_takes_free_slot (λ _, true) 2 (Some "aaaaa") sample_waiting
              (new_room 1) reachable_waiting eq_refl Hin Hfree)
    as (idx & rm' & _). reflexivity.
Defined.

(** X10.  A [join], [move] or [restart] whose reaction completes changes at
    most the room that its code names: the codes of the registry and their
    order stay the same and every other room is left as it was.  The
    reaction to a message other than [create] completes exactly when the
    message does not make the handler throw, that is when it is an object
    whose [roomCode], where the handler reads it, is a string or falsy. *)
Theorem other_rooms_untouched {js : JSString} e ws msg rooms :
  (msg ≠ Create →
   (is_Some (on_message e ws msg rooms) ↔ throws msg = false))
  ∧ (∀ rooms' out code,
       on_message e ws msg rooms = Some (rooms', out) →
       named_code msg = Some code →
       rooms'.*1 = rooms.*1
       ∧ ∀ c, c ≠ code → rooms_get c rooms' = rooms_get c rooms).
Proof.
  split.
  { intros Hmsg. unfold throws.
    destruct msg as [| |v|v ix|v|]; cbn [on_message]; try done;
      try (destruct (code_arg v) as [rc|]; cbn [mbind option_bind];
           rewrite ?bool_decide_eq_false; split;
           first [by intros [? [=]] | by intros Hn; destruct Hn
                 | by eauto | done]). }
  intros rooms' out code Hstep Hcode.
  assert (Hset : ∀ rm rm', rooms_get code rooms = Some rm →
            (rooms_set code rm' rooms).*1 = rooms.*1
            ∧ ∀ c, c ≠ code →
                rooms_get c (rooms_set code rm' rooms) = rooms_get c rooms).
  { intros rm rm' Hg. split.
    - by eapply rooms_set_keys_present, rooms_get_keys.
    - intros c Hc. by apply rooms_get_set_ne. }
  destruct msg as [| |v|v ix|v|]; cbn [on_message named_code] in *;
    try discriminate Hcode;
    (destruct (code_arg v) as [rc|]; cbn [mbind option_bind fmap option_fmap
       option_map] in *; [|done]);
    injection Hcode as <-; apply (inj Some) in Hstep.
  - replace rooms' with (on_join (isOpen e) ws rc rooms).1 by by rewrite Hstep.
    unfold on_join.
    destruct (rooms_get (normalize rc) rooms) as [rm|] eqn:Hg; [|done].
    destruct (includes _ _); [done|].
    destruct (findIndex_free _); [|done]. cbn [fst]. by eapply Hset.
  - replace rooms' with (on_move (isOpen e) ws rc ix rooms).1
      by by rewrite Hstep.
    unfold on_move.
    destruct (move_validate ws rc ix rooms) as [|m|c rm you i] eqn:Hv;
      [done..|].
    apply move_validate_ok in Hv as (-> & Hg & _).
    unfold move_apply. destruct (_ || _); cbn [fst]; by eapply Hset.
  - replace rooms' with (on_restart (isOpen e) ws rc rooms).1
      by by rewrite Hstep.
    unfold on_restart.
    destruct (rooms_get (normalize rc) rooms) as [rm|] eqn:Hg; [|done].
    destruct (negb _); [done|]. cbn [fst]. by eapply Hset.
Qed.

Lemma other_rooms_untouched_witness :
  (∃ rooms' out,
     on_message sample_env 1 (Move (VString "aaaaa") (cell 4)) sample_two_rooms
     = Some (rooms', out)
     ∧ rooms'.*1 = ["AAAAA"; "SSSSS"]
     ∧ rooms_get "SSSSS" rooms' = Some (new_room 3)
     ∧ rooms_get "AAAAA" rooms' ≠ rooms_get "AAAAA" sample_two_rooms)
  ∧ on_message sample_env 1 (Move (VBool true) (cell 4)) sample_two_rooms
    = None.
Proof.
  split.
  - destruct (on_message sample_env 1 (Move (VString "aaaaa") (cell 4))
                sample_two_rooms) as [[rooms' out]|] eqn:Hstep;
      [|by vm_compute in Hstep].
    destruct (proj2 (other_rooms_untouched sample_env 1
                       (Move (VString "aaaaa") (cell 4)) sample_two_rooms)
                rooms' out "AAAAA" Hstep eq_refl) as [Hkeys Hother].
    exists rooms', out. split; [reflexivity|]. split; [exact Hkeys|].
    split; [by rewrite Hother|].
    vm_compute in Hstep. injection Hstep as <- _. discriminate.
  - pose proof (proj1 (other_rooms_untouched sample_env 1
                         (Move (VBool true) (cell 4)) sample_two_rooms))
      as Hthrow.
    destruct (on_message sample_env 1 (Move (VBool true) (cell 4))
                sample_two_rooms) as [r|] eqn:Hstep; [|reflexivity].
    assert (Hsome : is_Some (Some r)) by by eexists.
    apply Hthrow in Hsome; [discriminate Hsome | discriminate].
Defined.

(** ** What a reaction sends, and to whom *)

Section Sending.
Context {js : JSString}.
Implicit Types (rooms : registry) (rm : room) (ws : conn) (x : send).

Lemma to_occupants_elem isOpen rm obj w m :
  (w, m) ∈ to_occupants isOpen rm obj
  ↔ Some w ∈ players rm ∧ isOpen w = true ∧ m = obj.
Proof.
  unfold to_occupants. rewrite list_elem_of_bind. split.
  - intros (p & Hin & Hp). apply safeSend_elem in Hin as (-> & -> & Ho). done.
  - intros (Hin & Ho & ->). exists (Some w). split; [|done].
    simpl. rewrite Ho. left.
Qed.

Lemma to_occupants_free isOpen rm obj :
  every_free (players rm) = true → to_occupants isOpen rm obj = [].
Proof.
  intros Hfree. apply every_free_true in Hfree. unfold to_occupants.
  induction Hfree as [|p ps -> _ IH]; [done|]. simpl. exact IH.
Qed.

Lemma well_sent_safe_plain isOpen ws rooms' obj x :
  (∀ st, obj ≠ MState st) →
  x ∈ safeSend isOpen (Some ws) obj → well_sent isOpen ws rooms' x.
Proof.
  intros Hplain Hin. destruct x as [w m].
  apply safeSend_elem in Hin as ([= <-] & -> & Ho).
  split; [done|]. split; [by left|]. intros st Hst. by destruct (Hplain st).
Qed.

Lemma well_sent_safe_state isOpen ws rooms' code rm x :
  rooms_get code rooms' = Some rm → Some ws ∈ players rm →
  x ∈ safeSend isOpen (Some ws) (MState (Some (view rm))) →
  well_sent isOpen ws rooms' x.
Proof.
  intros Hg Hocc Hin. destruct x as [w m].
  apply safeSend_elem in Hin as ([= <-] & -> & Ho).
  split; [done|]. split; [by left|]. intros st [= <-]. eauto.
Qed.

Lemma well_sent_occupants isOpen ws rooms' code rm obj x :
  rooms_get code rooms' = Some rm →
  (∀ st, obj = MState st → st = Some (view rm)) →
  x ∈ to_occupants isOpen rm obj → well_sent isOpen ws rooms' x.
Proof.
  intros Hg Hobj Hin. destruct x as [w m].
  apply to_occupants_elem in Hin as (Hocc & Ho & ->).
  split; [done|]. split; [right; eauto|].
  intros st Hst. apply Hobj in Hst. eauto.
Qed.

Lemma insert_free_elem (ps : list (option conn)) idx ws :
  ps !! idx = Some None → Some ws ∈ <[idx:=Some ws]> ps.
Proof.
  intros Hi. apply list_elem_of_lookup. exists idx.
  apply list_lookup_insert_eq. by eapply lookup_lt_Some.
Qed.

Ltac sent_plain H := eapply well_sent_safe_plain; [|exact H]; done.

Ltac sent_occupants H :=
  eapply well_sent_occupants; [apply rooms_get_set_eq| |exact H];
  first [done | by intros ? [= <-]].

Lemma react_well_sent e ev rooms rooms' out x :
  react e ev rooms = Some (rooms', out) →
  x ∈ out → well_sent (isOpen e) (event_conn ev) rooms' x.
Proof.
  intros Hstep Hin.
  destruct ev as [ws|ws [| |v|v ix|v|]|ws];
    cbn [react on_message event_conn] in *;
    try (destruct (code_arg v) as [rc|]; cbn [mbind option_bind] in Hstep;
         [|done]).
  - apply (inj Some), pair_equal_spec in Hstep as [<- <-]. sent_plain Hin.
  - done.
  - unfold on_create in Hstep.
    destruct (fresh_code _ _ _ _) as [code|]; [|done].
    apply (inj Some), pair_equal_spec in Hstep as [<- <-].
    rewrite state_msg_set in Hin.
    repeat (apply elem_of_app in Hin as [Hin|Hin]).
    + sent_plain Hin.
    + eapply well_sent_safe_state; [apply rooms_get_set_eq| |exact Hin]. left.
    + sent_plain Hin.
  - apply (inj Some) in Hstep. unfold on_join in Hstep.
    destruct (rooms_get (normalize rc) rooms) as [rm|] eqn:Hg;
      [|apply pair_equal_spec in Hstep as [<- <-]; sent_plain Hin].
    destruct (includes (players rm) ws) eqn:Hinc.
    { apply pair_equal_spec in Hstep as [<- <-].
      rewrite (state_msg_get _ _ _ Hg) in Hin.
      apply elem_of_app in Hin as [Hin|Hin].
      - sent_plain Hin.
      - eapply well_sent_safe_state; [exact Hg| |exact Hin].
        by apply includes_true. }
    destruct (findIndex_free (players rm)) as [idx|] eqn:Hfree;
      [|apply pair_equal_spec in Hstep as [<- <-]; sent_plain Hin].
    apply pair_equal_spec in Hstep as [<- <-].
    apply findIndex_free_Some in Hfree as [Hi _].
    rewrite !broadcastRoom_set, state_msg_set in Hin.
    repeat (apply elem_of_app in Hin as [Hin|Hin]).
    + sent_plain Hin.
    + eapply well_sent_safe_state; [apply rooms_get_set_eq| |exact Hin].
      by apply insert_free_elem.
    + sent_occupants Hin.
    + sent_occupants Hin.
  - apply (inj Some) in Hstep. unfold on_move in Hstep.
    destruct (move_validate ws rc ix rooms) as [|m|c rm you i].
    + apply pair_equal_spec in Hstep as [<- <-]. by apply elem_of_nil in Hin.
    + apply pair_equal_spec in Hstep as [<- <-]. sent_plain Hin.
    + unfold move_apply in Hstep.
      destruct (_ || _); apply pair_equal_spec in Hstep as [<- <-];
        rewrite !broadcastRoom_set, state_msg_set in Hin;
        repeat (apply elem_of_app in Hin as [Hin|Hin]);
        sent_occupants Hin.
  - apply (inj Some) in Hstep. unfold on_restart in Hstep.
    destruct (rooms_get (normalize rc) rooms) as [rm|];
      [|apply pair_equal_spec in Hstep as [<- <-];
        by apply elem_of_nil in Hin].
    destruct (negb _);
      [apply pair_equal_spec in Hstep as [<- <-];
       by apply elem_of_nil in Hin|].
    apply pair_equal_spec in Hstep as [<- <-].
    rewrite !broadcastRoom_set, state_msg_set in Hin.
    repeat (apply elem_of_app in Hin as [Hin|Hin]); sent_occupants Hin.
  - apply (inj Some), pair_equal_spec in Hstep as [<- <-].
    by apply elem_of_nil in Hin.
  - apply (inj Some) in Hstep. unfold cleanupWs in Hstep.
    rewrite cleanupWs_scan_room_of in Hstep.
    destruct (room_of ws rooms) as [[[c rm] idx]|];
      [|apply pair_equal_spec in Hstep as [<- <-];
        by apply elem_of_nil in Hin].
    cbv zeta in Hstep.
    destruct (every_free (players (vacate ws idx rm))) eqn:Hfree;
      apply pair_equal_spec in Hstep as [<- <-].
    + rewrite !to_occupants_free in Hin by done. by apply elem_of_nil in Hin.
    + repeat (apply elem_of_app in Hin as [Hin|Hin]); sent_occupants Hin.
Qed.
End Sending.

(** X11.  No reaction sends to a connection that is not open, and every
    message it sends goes to the connection the event came from or to an
    occupant of a room of the registry that the reaction leaves. *)
Theorem sends_reach_open_parties {js : JSString} e ev rooms rooms' out w m :
  react e ev rooms = Some (rooms', out) →
  (w, m) ∈ out →
  isOpen e w = true
  ∧ (w = event_conn ev
     ∨ ∃ code rm, rooms_get code rooms' = Some rm ∧ Some w ∈ players rm).
Proof.
  intros Hstep Hin.
  destruct (react_well_sent _ _ _ _ _ _ Hstep Hin) as (Ho & Hw & _). done.
Qed.

Lemma sends_reach_open_parties_witness :
  ∃ rooms' out,
    react sample_env (Closed 2) sample_playing = Some (rooms', out)
    ∧ (1, MInfo msg_left) ∈ out
    ∧ isOpen sample_env 1 = true.
Proof.
  destruct (react sample_env (Closed 2) sample_playing)
    as [[rooms' out]|] eqn:Hstep; [|by vm_compute in Hstep].
  assert (Hin : (1, MInfo msg_left) ∈ out).
  { vm_compute in Hstep. injection Hstep as _ <-. left. }
  exists rooms', out. split; [reflexivity|]. split; [exact Hin|].
  exact (proj1 (sends_reach_open_parties _ _ _ _ _ _ _ Hstep Hin)).
Defined.

(** X12.  Every state message that a reaction sends shows a room of the
    registry as the reaction leaves it, and goes to a connection that
    occupies a slot of that room: nobody is sent the state of a room they
    are not in, a stale state, or a state without a room. *)
Theorem state_is_snapshot {js : JSString} e ev rooms rooms' out w st :
  react e ev rooms = Some (rooms', out) →
  (w, MState st) ∈ out →
  ∃ code rm,
    rooms_get code rooms' = Some rm
    ∧ Some w ∈ players rm
    ∧ st = Some (RoomView (board rm) (turn rm) (gameOver rm)
                   (playersCount (players rm))).
Proof.
  intros Hstep Hin.
  destruct (react_well_sent _ _ _ _ _ _ Hstep Hin) as (_ & _ & Hst).
  by apply Hst.
Qed.

Lemma state_is_snapshot_witness :
  ∃ rooms' out st,
    react sample_env (Message 2 (Join (VString "aaaaa"))) sample_waiting
    = Some (rooms', out)
    ∧ (1, MState st) ∈ out
    ∧ ∃ code rm, rooms_get code rooms' = Some rm ∧ Some 1 ∈ players rm.
Proof.
  destruct (react sample_env (Message 2 (Join (VString "aaaaa"))) sample_waiting)
    as [[rooms' out]|] eqn:Hstep; [|by vm_compute in Hstep].
  assert (Hin : (1, MState (Some (RoomView (replicate 9 "") "X" false 2)))
                ∈ out).
  { vm_compute in Hstep. injection Hstep as _ <-.
    do 4 right. left. }
  exists rooms', out, (Some (RoomView (replicate 9 "") "X" false 2)).
  split; [reflexivity|]. split; [exact Hin|].
  destruct (state_is_snapshot _ _ _ _ _ _ _ Hstep Hin)
    as (code & rm & Hg & Hocc & _).
  exists code, rm. split; [exact Hg | exact Hocc].
Defined.

(** ** Leaving and coming back *)

Section Leaving.
Context {js : JSString}.
Implicit Types (rooms : registry) (rm : room) (ws : conn).

Lemma every_free_false (ps : list (option conn)) :
  every_free ps = false ↔ ∃ w, Some w ∈ ps.
Proof.
  rewrite <- not_true_iff_false, every_free_true. split.
  - intros Hno. apply not_Forall_Exists in Hno; [|apply _].
    apply Exists_exists in Hno as ([w|] & Hin & Hp); [eauto | by destruct Hp].
  - intros [w Hw] Hall. rewrite Forall_forall in Hall. by apply Hall in Hw.
Qed.

(** What [cleanupWs] leaves when the room it finds keeps an occupant. *)
Lemma cleanupWs_keeps isOpen ws rooms code rm idx :
  room_of ws rooms = Some (code, rm, idx) →
  (∃ w, Some w ∈ players (vacate ws idx rm)) →
  (cleanupWs isOpen ws rooms).1 = rooms_set code (vacate ws idx rm) rooms.
Proof.
  intros Hroom Hstay. unfold cleanupWs.
  rewrite cleanupWs_scan_room_of, Hroom. cbv zeta.
  by rewrite (proj2 (every_free_false _) Hstay).
Qed.

(** The slot that [ws] left is the first empty one when the other slot is
    occupied. *)
Lemma vacated_slot_is_free rm ws idx :
  room_ok rm → indexOf (players rm) ws = Some idx →
  (∃ w, Some w ∈ players (vacate ws idx rm)) →
  findIndex_free (players (vacate ws idx rm)) = Some idx
  ∧ symbols rm !! ws = Some (symbol_of_slot idx)
  ∧ Forall is_Some (players rm).
Proof.
  intros [(p0 & p1 & Hp & _ & _) Hsym _ _ _] Hidx [w Hw].
  apply indexOf_Some in Hidx as [Hi Hfirst].
  unfold vacate in *. cbn [players] in *. rewrite Hp in *.
  destruct idx as [|[|idx]]; simplify_eq/=.
  - apply elem_of_cons in Hw as [[=]|Hw].
    apply list_elem_of_singleton in Hw as <-.
    split; [done|]. split; [apply Hsym; by left|]. repeat constructor; eauto.
  - apply elem_of_cons in Hw as [<-|Hw];
      [|apply list_elem_of_singleton in Hw; discriminate Hw].
    split; [done|]. split; [apply Hsym; by right|]. repeat constructor; eauto.
Qed.
End Leaving.

(** X15.  A seat that a disconnect has emptied goes, with its symbol, to
    the next connection that joins: when [ws] leaves a room of a reachable
    registry in which the other player stays, a [join] with the code of the
    room by a connection that is not that other player takes the very slot
    and symbol that [ws] had, and finds the board, the turn and gameOver as
    [ws] left them. *)
Theorem reconnect_takes_vacated_seat {js : JSString}
    isOpen isOpen' ws ws' rooms code rm idx :
  reachable rooms →
  room_of ws rooms = Some (code, rm, idx) →
  (∃ w, Some w ∈ players (vacate ws idx rm)) →
  Some ws' ∉ players (vacate ws idx rm) →
  let rooms1 := (cleanupWs isOpen ws rooms).1 in
  let result := on_join isOpen' ws' (Some code) rooms1 in
  ∃ rm2,
    rooms_get code result.1 = Some rm2
    ∧ players rm2 = <[idx:=Some ws']> (players rm)
    ∧ symbols rm !! ws = Some (symbol_of_slot idx)
    ∧ symbols rm2 !! ws' = Some (symbol_of_slot idx)
    ∧ (board rm2, turn rm2, gameOver rm2) = (board rm, turn rm, gameOver rm)
    ∧ result.1.*1 = rooms.*1.
Proof.
  intros Hreach Hroom Hstay Hnew rooms1 result.
  apply reachable_ok in Hreach as [Hnd Hall].
  apply room_of_Some in Hroom as Hfound. destruct Hfound as [Hin Hidx].
  destruct (Hall _ _ Hin) as [Hcode Hrm].
  destruct (vacated_slot_is_free rm ws idx Hrm Hidx Hstay)
    as (Hfree & Hsym & _).
  assert (Hkey : code ∈ rooms.*1).
  { apply list_elem_of_fmap. by exists (code, rm). }
  unfold result, rooms1. rewrite (cleanupWs_keeps _ _ _ _ _ _ Hroom Hstay).
  assert (Hg : rooms_get (normalize (Some code))
                 (rooms_set code (vacate ws idx rm) rooms)
               = Some (vacate ws idx rm)).
  { rewrite (normalize_valid _ Hcode). apply rooms_get_set_eq. }
  rewrite (on_join_fresh _ _ _ _ _ _ Hg Hnew Hfree).
  rewrite (normalize_valid _ Hcode). cbn [fst].
  eexists. split; [apply rooms_get_set_eq|]. cbn [players symbols].
  split; [unfold vacate; cbn [players]; apply list_insert_insert_eq|].
  split; [done|]. split; [apply lookup_insert_eq|]. split; [done|].
  rewrite !rooms_set_keys_present; [done..|].
  by rewrite rooms_set_keys_present.
Qed.

Lemma reconnect_takes_vacated_seat_witness :
  reachable sample_won
  ∧ room_of 2 sample_won
    = Some ("AAAAA",
            Room [Some 1; Some 2] (<[2:="O"]> {[1:="X"]})
                 ["X"; "X"; "X"; ""; "O"; "O"; ""; ""; ""] "X" true, 1)
  ∧ ∃ rm2,
      rooms_get "AAAAA"
        (on_join (λ _, true) 3 (Some "AAAAA")
           (cleanupWs (λ _, true) 2 sample_won).1).1 = Some rm2
      ∧ players rm2 = [Some 1; Some 3]
      ∧ symbols rm2 !! 3 = Some "O".
Proof.
  split; [exact reachable_won|]. split; [reflexivity|].
  assert (Hstay : ∃ w, Some w ∈ [Some 1; (None : option conn)])
    by (exists 1; left).
  assert (Hnew : Some 3 ∉ [Some 1; (None : option conn)]).
  { intros H. apply elem_of_cons in H as [H|H]; [discriminate H|].
    apply elem_of_cons in H as [H|H]; [discriminate H|].
    by apply elem_of_nil in H. }
  destruct (reconnect_takes_vacated_seat (λ _, true) (λ _, true) 2 3
              sample_won "AAAAA" _ 1 reachable_won eq_refl Hstay Hnew)
    as (rm2 & Hg & Hp & _ & Hs & _).
  exists rm2. split; [exact Hg|]. split; [exact Hp | exact Hs].
Defined.

(** X16.  While a connection holds a slot in at most one room of a
    reachable registry, handling its disconnect a second time, as happens
    when both the close and the error event fire, changes nothing and sends
    nothing. *)
Theorem second_close_is_noop {js : JSString} isOpen isOpen' ws code rooms :
  reachable rooms →
  only_in ws code rooms →
  cleanupWs isOpen' ws (cleanupWs isOpen ws rooms).1
  = ((cleanupWs isOpen ws rooms).1, []).
Proof.
  intros Hreach Honly. apply reachable_ok in Hreach as Hok.
  pose proof (cleanupWs_scan_ok isOpen ws rooms rooms Hok (reflexivity _))
    as [Hnd' _].
  fold (cleanupWs isOpen ws rooms) in Hnd'.
  enough (Hnone : room_of ws (cleanupWs isOpen ws rooms).1 = None).
  { unfold cleanupWs at 1. by rewrite cleanupWs_scan_room_of, Hnone. }
  apply room_of_None. intros c r Hin.
  apply (elem_of_rooms_get _ _ _ Hnd') in Hin. revert Hin.
  unfold cleanupWs. rewrite cleanupWs_scan_room_of.
  destruct (room_of ws rooms) as [[[c0 rm] idx]|] eqn:Hroom.
  - apply room_of_Some in Hroom as [Hin0 Hidx].
    destruct Hok as [Hnd Hall]. destruct (Hall _ _ Hin0) as [_ Hrm].
    pose proof (elem_of_rooms_get _ _ _ Hnd Hin0) as Hg0.
    destruct (vacate_gone rm ws idx Hrm Hidx) as (Hgone & _ & _).
    assert (Hc0 : c0 = code).
    { apply (Honly c0 rm Hg0). apply indexOf_Some in Hidx as [Hi _].
      by eapply list_elem_of_lookup_2. }
    cbv zeta. destruct (every_free _); cbn [fst].
    + destruct (decide (c = c0)) as [->|Hne];
        [by rewrite rooms_get_delete_eq|].
      rewrite rooms_get_delete_ne by done. intros Hg Hocc.
      apply Hne. rewrite Hc0. by apply (Honly c r).
    + rewrite rooms_get_set. case_decide as Hc; [by intros [= <-]|].
      intros Hg Hocc. apply Hc. rewrite Hc0. by apply (Honly c r).
  - cbn [fst]. intros Hg.
    apply (proj1 (room_of_None ws rooms) Hroom c r).
    by apply rooms_get_elem_of.
Qed.

Lemma second_close_is_noop_witness :
  reachable sample_playing
  ∧ only_in 2 "AAAAA" sample_playing
  ∧ cleanupWs (λ _, true) 2 (cleanupWs (λ _, true) 2 sample_playing).1
    = (sample_waiting, []).
Proof.
  assert (Honly : only_in 2 "AAAAA" sample_playing).
  { intros c rm Hg _. unfold sample_playing in Hg. simpl in Hg.
    destruct (decide ("AAAAA" = c)) as [Heq|Hne]; [by symmetry|].
    discriminate Hg. }
  split; [exact reachable_playing|]. split; [exact Honly|].
  rewrite (second_close_is_noop (λ _, true) (λ _, true) 2 "AAAAA"
             sample_playing reachable_playing Honly).
  reflexivity.
Defined.

(** X17.  In a reachable registry a message whose [roomCode] is a string
    or falsy and does not normalise to five characters of the alphabet
    names no room: such a [join] is answered "room not found", such a
    [move] or [restart] is ignored, and the registry is unchanged.  That is
    the case of every message whose [roomCode] is falsy: absent, null,
    false, 0, NaN or the empty string all normalise to the empty string.  A
    [roomCode] that is truthy and not a string makes the handler throw, and
    the reaction does not complete. *)
Theorem unusable_code_names_no_room {js : JSString} e ws roomCode index rooms :
  reachable rooms →
  let unanswered :=
    on_message e ws (Join roomCode) rooms
    = Some (rooms, safeSend (isOpen e) (Some ws) (MError err_not_found))
    ∧ on_message e ws (Move roomCode index) rooms = Some (rooms, [])
    ∧ on_message e ws (Restart roomCode) rooms = Some (rooms, []) in
  (∀ rc, code_arg roomCode = Some rc →
     ¬ valid_code (normalize rc) → unanswered)
  ∧ (js_truthy roomCode = false →
     (∃ rc, code_arg roomCode = Some rc ∧ normalize rc = "") ∧ unanswered)
  ∧ (js_truthy roomCode = true → (∀ s, roomCode ≠ VString s) →
     on_message e ws (Join roomCode) rooms = None
     ∧ on_message e ws (Move roomCode index) rooms = None
     ∧ on_message e ws (Restart roomCode) rooms = None).
Proof.
  intros Hreach unanswered. apply reachable_ok in Hreach as Hok.
  assert (Hshort : ∀ rc, code_arg roomCode = Some rc →
            ¬ valid_code (normalize rc) → unanswered).
  { intros rc Hrc Hlen.
    assert (Hg : rooms_get (normalize rc) rooms = None).
    { apply eq_None_not_Some. intros [rm Hg].
      by destruct (registry_ok_get _ _ _ Hok Hg) as [Hvalid _]. }
    unfold unanswered. cbn [on_message]. rewrite Hrc.
    cbn [mbind option_bind].
    unfold on_join, on_move, move_validate, on_restart. by rewrite Hg. }
  split; [exact Hshort|]. split.
  - intros Hfalsy.
    assert (Hrc : ∃ rc, code_arg roomCode = Some rc ∧ normalize rc = "").
    { destruct roomCode as [| |b|n|s|]; cbn [code_arg] in *;
        rewrite ?Hfalsy;
        [exists None; split; [done|apply normalize_empty]..| |].
      - destruct s; [|discriminate Hfalsy].
        exists (Some ""). split; [done|apply normalize_empty].
      - exists None. split; [done|apply normalize_empty]. }
    split; [exact Hrc|]. destruct Hrc as (rc & Hrc & Hn).
    apply (Hshort rc Hrc). rewrite Hn. by intros [Hlen _].
  - intros Htruthy Hstr.
    assert (Hrc : code_arg roomCode = None).
    { destruct roomCode as [| |b|n|s|]; cbn [code_arg] in *;
        rewrite ?Htruthy; try done. by destruct (Hstr s). }
    cbn [on_message]. by rewrite Hrc.
Qed.

Lemma unusable_code_names_no_room_witness :
  reachable sample_playing
  ∧ on_message sample_env 3 (Join VUndefined) sample_playing
    = Some (sample_playing, [(3, MError err_not_found)])
  ∧ on_message sample_env 3 (Join (VString "AAA")) sample_playing
    = Some (sample_playing, [(3, MError err_not_found)])
  ∧ on_message sample_env 3 (Restart (VNumber (Finite 12345))) sample_playing
    = None.
Proof.
  split; [exact reachable_playing|].
  pose proof (unusable_code_names_no_room sample_env 3 VUndefined VUndefined
                sample_playing reachable_playing) as (_ & Hfalsy & _).
  pose proof (unusable_code_names_no_room sample_env 3 (VString "AAA")
                VUndefined sample_playing reachable_playing) as (Hshort & _).
  pose proof (unusable_code_names_no_room sample_env 3
                (VNumber (Finite 12345)) VUndefined sample_playing
                reachable_playing) as (_ & _ & Hthrow).
  split; [exact (proj1 (proj2 (Hfalsy eq_refl)))|].
  split; [refine (proj1 (Hshort (Some "AAA") eq_refl _)); by intros [Hlen _]|].
  refine (proj2 (proj2 (Hthrow eq_refl _))). discriminate.
Defined.

(** ** Broadcasts and restarts *)

Section Broadcast.
Context {js : JSString}.
Implicit Types (rooms : registry) (rm : room) (ws : conn).

Lemma symbols_of_two rm (a b : conn) :
  room_ok rm → players rm = [Some a; Some b] →
  symbols rm = <[b:="O"]> {[a:="X"]} ∧ a ≠ b.
Proof.
  intros [(p0 & p1 & Hp & _ & Hne) Hsym _ _ _] Hab.
  rewrite Hab in *. simplify_eq.
  assert (Hneq : a ≠ b) by (intros ->; by apply Hne; [eauto|]).
  split; [|done]. apply map_eq. intros w.
  destruct (symbols rm !! w) as [s|] eqn:Hs.
  - apply Hsym in Hs as [[[= <-] ->]|[[= <-] ->]]; symmetry.
    + rewrite lookup_insert_ne by done. apply lookup_singleton_eq.
    + apply lookup_insert_eq.
  - symmetry. apply eq_None_not_Some. intros [s Hs'].
    apply lookup_insert_Some in Hs' as [[<- <-]|[Hwb Hs']].
    + assert (symbols rm !! b = Some "O") by (apply Hsym; by right).
      congruence.
    + apply lookup_singleton_Some in Hs' as [<- <-].
      assert (symbols rm !! a = Some "X") by (apply Hsym; by left).
      congruence.
Qed.

Lemma bind_safeSend isOpen (ps : list (option conn)) obj :
  (p ← ps; safeSend isOpen p obj)
  = (λ w, (w, obj)) <$> filter (λ w, isOpen w = true) (omap id ps).
Proof.
  induction ps as [|[w|] ps IH]; [done| |by rewrite bind_cons, IH].
  rewrite bind_cons, IH. unfold safeSend.
  change (omap id (Some w :: ps)) with (w :: omap id ps).
  destruct (isOpen w) eqn:Hw.
  - by rewrite filter_cons_True by done.
  - rewrite filter_cons_False; [done|]. congruence.
Qed.
End Broadcast.

(** X18.  A broadcast to a room of a reachable registry reaches each open
    occupant of the room exactly once, the occupant of slot 0 first, and
    nobody else; a broadcast to a code that names no room sends nothing. *)
Theorem broadcast_reaches_occupants {js : JSString} isOpen rooms code obj :
  reachable rooms →
  match rooms_get code rooms with
  | None => broadcastRoom isOpen rooms code obj = []
  | Some rm =>
      ∃ receivers,
        broadcastRoom isOpen rooms code obj = (λ w, (w, obj)) <$> receivers
        ∧ NoDup receivers
        ∧ (∀ w, w ∈ receivers ↔ Some w ∈ players rm ∧ isOpen w = true)
        ∧ (∀ a b, players rm = [Some a; Some b] →
             isOpen a = true → isOpen b = true → receivers = [a; b])
  end.
Proof.
  intros Hreach. apply reachable_ok in Hreach as Hok.
  unfold broadcastRoom.
  destruct (rooms_get code rooms) as [rm|] eqn:Hg; [|done].
  destruct (registry_ok_get _ _ _ Hok Hg)
    as [_ [(p0 & p1 & Hp & _ & Hne) _ _ _ _]].
  exists (filter (λ w, isOpen w = true) (omap id (players rm))).
  split; [apply bind_safeSend|]. split; [|split].
  - apply NoDup_filter. rewrite Hp.
    destruct p0 as [a|], p1 as [b|]; simpl; repeat constructor;
      try apply not_elem_of_nil.
    rewrite list_elem_of_singleton. intros ->. by apply Hne; [eauto|].
  - intros w. rewrite list_elem_of_filter, list_elem_of_omap. split.
    + intros (Ho & p & Hin & Hw). simpl in Hw. by subst p.
    + intros (Hin & Ho). split; [done|]. by exists (Some w).
  - intros a b Hab Ha Hb. rewrite Hab. simpl.
    rewrite filter_cons_True by done. by rewrite filter_cons_True by done.
Qed.

Lemma broadcast_reaches_occupants_witness :
  reachable sample_playing
  ∧ broadcastRoom (λ _, true) sample_playing "AAAAA" (MInfo msg_restarted)
    = [(1, MInfo msg_restarted); (2, MInfo msg_restarted)].
Proof.
  split; [exact reachable_playing|].
  pose proof (broadcast_reaches_occupants (λ _, true) sample_playing "AAAAA"
                (MInfo msg_restarted) reachable_playing) as H.
  change (rooms_get "AAAAA" sample_playing)
    with (Some (Room [Some 1; Some 2] (<[2:="O"]> {[1:="X"]})
                     (replicate 9 "") "X" false)) in H.
  destruct H as (receivers & -> & _ & _ & Hboth).
  rewrite (Hboth 1 2 eq_refl eq_refl eq_refl). reflexivity.
Defined.

(** X19.  [restart] in a room with both seats taken gives the game that a
    fresh room would have: the room it leaves is the room obtained when the
    occupant of slot 0 creates a room under that code and the occupant of
    slot 1 joins it. *)
Theorem restart_is_fresh_game {js : JSString}
    isOpen isOpen' ws rooms code rm (a b : conn) :
  reachable rooms →
  rooms_get code rooms = Some rm →
  players rm = [Some a; Some b] →
  Some ws ∈ players rm →
  rooms_get code (on_restart isOpen ws (Some code) rooms).1
  = rooms_get code (on_join isOpen' b (Some code) [(code, new_room a)]).1.
Proof.
  intros Hreach Hg Hab Hin. apply reachable_ok in Hreach as Hok.
  destruct (registry_ok_get _ _ _ Hok Hg) as [Hcode Hrm].
  destruct (symbols_of_two rm a b Hrm Hab) as [Hsym Hne].
  unfold on_restart, on_join. rewrite (normalize_valid _ Hcode), Hg.
  rewrite (proj2 (room_ok_truthy rm ws Hrm) Hin).
  cbn [negb fst rooms_get]. rewrite decide_True by done.
  unfold includes. cbn [new_room players].
  rewrite bool_decide_false.
  2:{ intros H. apply elem_of_cons in H as [[= ->]|H]; [done|].
      apply elem_of_cons in H as [[=]|H]. by apply elem_of_nil in H. }
  change (findIndex_free [Some a; None]) with (Some 1).
  cbn [fst]. rewrite !rooms_get_set_eq. cbn. by rewrite Hab, Hsym.
Qed.

Lemma restart_is_fresh_game_witness :
  reachable sample_won
  ∧ (Some 2 ∈ [Some 1; Some 2])
  ∧ rooms_get "AAAAA" (on_restart (λ _, true) 2 (Some "AAAAA") sample_won).1
    = rooms_get "AAAAA" sample_playing.
Proof.
  assert (Hin : Some 2 ∈ [Some 1; Some 2]) by (right; left).
  split; [exact reachable_won|]. split; [exact Hin|].
  rewrite (restart_is_fresh_game (λ _, true) (λ _, true) 2 sample_won "AAAAA"
             _ 1 2 reachable_won eq_refl eq_refl Hin).
  reflexivity.
Defined.
